(** * Auto Prescribe (streamlit_app.py): display formatting, polling and
      session state

    A shallow embedding of [streamlit_app.py].  The text transformations of
    the Summary and Key Insights pages are pure functions on Python strings;
    the two button actions (transcription, summarisation) are functions from
    the session state and the HTTP responses they receive to an outcome made
    of the new session state and the messages put on the page.

    Python's [str] is embedded as a list of characters.  A character is a
    code point below 256, so [is_space] and [to_lower] list what
    [str.isspace] and [str.lower] do on that range. *)

From Stdlib Require Import Ascii String List ZArith Lia Bool Arith.
Import ListNotations.

Local Open Scope list_scope.
Local Open Scope bool_scope.

(** ** Python strings *)

Module PyStr.

Definition str := list ascii.

(** A literal of the source. *)
Definition lit (s : string) : str := list_ascii_of_string s.

Definition newline : ascii := ascii_of_nat 10.

(** [bool(s)] of a string: true exactly when it is not empty. *)
Definition truthy (s : str) : bool :=
  match s with
  | [] => false
  | _ :: _ => true
  end.

(** [a or b] on strings. *)
Definition py_or (a b : str) : str := if truthy a then a else b.

(** [c.isspace()] for a code point below 256. *)
Definition is_space (c : ascii) : bool :=
  let n := nat_of_ascii c in
  ((9 <=? n) && (n <=? 13)) || ((28 <=? n) && (n <=? 32))
  || (n =? 133) || (n =? 160).

(** [c.lower()] for a code point below 256: the ASCII capitals and the
    Latin-1 capitals (all of 0xC0..0xDE but the multiplication sign). *)
Definition to_lower (c : ascii) : ascii :=
  let n := nat_of_ascii c in
  if ((65 <=? n) && (n <=? 90))
     || ((192 <=? n) && (n <=? 222) && negb (n =? 215))
  then ascii_of_nat (n + 32) else c.

Definition lower (s : str) : str := map to_lower s.

Fixpoint lstrip (s : str) : str :=
  match s with
  | [] => []
  | c :: s' => if is_space c then lstrip s' else s
  end.

Fixpoint rstrip (s : str) : str :=
  match s with
  | [] => []
  | c :: s' =>
      match rstrip s' with
      | [] => if is_space c then [] else [c]
      | r => c :: r
      end
  end.

(** [s.strip()] *)
Definition strip (s : str) : str := rstrip (lstrip s).

(** [strip_prefix p s] is [Some r] when [s = p ++ r]. *)
Fixpoint strip_prefix (p s : str) : option str :=
  match p, s with
  | [], _ => Some s
  | _ :: _, [] => None
  | a :: p', b :: s' => if Ascii.eqb a b then strip_prefix p' s' else None
  end.

(** [s.startswith(p)] *)
Definition startswith (p s : str) : bool :=
  match strip_prefix p s with
  | Some _ => true
  | None => false
  end.

(** [sub in s] *)
Fixpoint contains (sub s : str) : bool :=
  startswith sub s ||
  match s with
  | [] => false
  | _ :: s' => contains sub s'
  end.

(** The leftmost occurrence of [sep] in [s]: the text before it and the
    text after it. *)
Fixpoint find_first (sep s : str) : option (str * str) :=
  match strip_prefix sep s with
  | Some rest => Some ([], rest)
  | None =>
      match s with
      | [] => None
      | c :: s' =>
          match find_first sep s' with
          | Some (pre, post) => Some (c :: pre, post)
          | None => None
          end
      end
  end.

(** [s.split(sep, 1)] for a non-empty [sep]. *)
Definition split_once (sep s : str) : list str :=
  match find_first sep s with
  | Some (pre, post) => [pre; post]
  | None => [s]
  end.

(** [s.split(c)] for a separator [c] of one character. *)
Fixpoint split_char (c : ascii) (s : str) : list str :=
  match s with
  | [] => [[]]
  | a :: s' =>
      if Ascii.eqb a c then [] :: split_char c s'
      else match split_char c s' with
           | [] => [[a]]
           | f :: fs => (a :: f) :: fs
           end
  end.

(** [s.replace(a, b)] for [a] and [b] of one character each. *)
Definition replace_char (a b : ascii) (s : str) : str :=
  map (fun c => if Ascii.eqb c a then b else c) s.

(** [sep.join(l)] *)
Fixpoint join (sep : str) (l : list str) : str :=
  match l with
  | [] => []
  | [x] => x
  | x :: l' => x ++ sep ++ join sep l'
  end.

(** [l[0]] and [l[-1]] of a list that is never empty here. *)
Definition first (l : list str) : str := hd [] l.
Definition final (l : list str) : str := last l [].

(** [s[n:]] *)
Definition slice_from (n : nat) (s : str) : str := skipn n s.

End PyStr.

Import PyStr.

(** ** Insight extraction and display formatting (lines 129-166) *)

Definition marker : str := lit "Key Actions:".
Definition label : str := lit "summary:".
Definition bullet : str := lit "- ".
Definition placeholder : str := lit "No key actions found.".

(** Lines 130-134: the text of the Summary page. *)
Definition summary_text (summary : str) : str :=
  let summary_text :=
    if contains marker summary then first (split_once marker summary)
    else summary in
  if startswith label (strip (lower summary_text))
  then strip (slice_from (length label) summary_text)
  else summary_text.

(** Lines 149-152: the text after the marker. *)
Definition key_actions (summary : str) : str :=
  if contains marker summary then strip (final (split_once marker summary))
  else [].

(** Line 157: the fragments between periods and semicolons. *)
Definition points (key_actions : str) : list str :=
  map strip
    (filter (fun pt => truthy (strip pt))
       (split_char "." (replace_char ";" "." key_actions))).

(** [already_formatted ka] is the test
    ["- " in key_actions or "\n" in key_actions]. *)
Definition already_formatted (key_actions : str) : bool :=
  contains bullet key_actions || contains [newline] key_actions.

(** Lines 154-159. *)
Definition display_key_actions (key_actions : str) : str :=
  if truthy key_actions && negb (already_formatted key_actions) then
    let points := points key_actions in
    if 1 <? length points
    then join [newline] (map (fun pt => bullet ++ pt) points)
    else key_actions
  else key_actions.

(** Lines 160 and 163: [display_key_actions or "No key actions found."] *)
Definition shown_key_actions (key_actions : str) : str :=
  py_or (display_key_actions key_actions) placeholder.

(** ** Page elements *)

(** The calls that put something on the page.  Labels and fixed messages
    are kept as the literals of the source. *)
Inductive widget : Type :=
| Subheader (body : string)
| Warning (body : string)
| TextArea (label : string) (value : str) (height : Z)
| DownloadButton (label : string) (data : str) (file_name mime : string).

(** Lines 129-143: what the Summary page shows for a stored summary. *)
Definition summary_section (summary : str) : list widget :=
  if truthy summary then
    let summary_text := summary_text summary in
    [ Subheader "📋 Summary";
      TextArea "" summary_text 300;
      DownloadButton "⬇️ Download Summary" summary_text
        "summary.txt" "text/plain" ]
  else [].

(** Lines 146-168: the Key Insights page for a stored summary. *)
Definition key_insights_page (summary : str) : list widget :=
  Subheader "Key Insights from Summary" ::
  if truthy summary then
    let key_actions := key_actions summary in
    let display_key_actions := display_key_actions key_actions in
    [ TextArea "Key Actions" (py_or display_key_actions placeholder) 200;
      DownloadButton "Download Key Insights"
        (py_or display_key_actions placeholder)
        "key_insights.txt" "text/plain" ]
  else [ Warning "Please generate a summary first." ].

(** The values of the text areas of a page, and the data its download
    buttons serve. *)
Definition text_areas (page : list widget) : list str :=
  flat_map (fun w => match w with TextArea _ v _ => [v] | _ => [] end) page.

Definition downloads (page : list widget) : list (string * str) :=
  flat_map
    (fun w => match w with DownloadButton _ d f _ => [(f, d)] | _ => [] end)
    page.

(** ** JSON values and HTTP responses *)

(** What [response.json()] returns.  The code never looks into a number,
    so numbers are kept as integers. *)
#[local] Unset Elimination Schemes.
Inductive value : Type :=
| JNull
| JBool (b : bool)
| JNum (n : Z)
| JStr (s : str)
| JArr (items : list value)
| JObj (fields : list (str * value)).
#[local] Set Elimination Schemes.

Inductive exn : Type :=
| KeyError
| IndexError
| TypeError
| JSONDecodeError.

(** A computation that returns or raises. *)
Inductive result (A : Type) : Type :=
| Ok (a : A)
| Raise (e : exn).
Arguments Ok {A} a.
Arguments Raise {A} e.

Definition bind {A B : Type} (r : result A) (k : A -> result B) : result B :=
  match r with
  | Ok a => k a
  | Raise e => Raise e
  end.

Notation "x <- r ;; k" := (bind r (fun x => k))
  (at level 61, r at next level, right associativity).

Definition str_eqb (a b : str) : bool :=
  if list_eq_dec ascii_dec a b then true else false.

Fixpoint lookup (key : str) (fields : list (str * value)) : option value :=
  match fields with
  | [] => None
  | (k, v) :: rest => if str_eqb k key then Some v else lookup key rest
  end.

(** [v[key]] for a string key. *)
Definition item (key : string) (v : value) : result value :=
  match v with
  | JObj fields =>
      match lookup (lit key) fields with
      | Some x => Ok x
      | None => Raise KeyError
      end
  | _ => Raise TypeError
  end.

(** [v[0]] *)
Definition item0 (v : value) : result value :=
  match v with
  | JArr [] => Raise IndexError
  | JArr (x :: _) => Ok x
  | JStr [] => Raise IndexError
  | JStr (c :: _) => Ok (JStr [c])
  | JObj _ => Raise KeyError
  | _ => Raise TypeError
  end.

(** [v == s] for a string literal [s]. *)
Definition equals (v : value) (s : string) : bool :=
  match v with
  | JStr t => str_eqb t (lit s)
  | _ => false
  end.

(** A response of the [requests] library: [json] is [None] when the body
    is not JSON, and [.json()] raises then. *)
Record response : Type := {
  status_code : Z;
  text : str;
  json : option value
}.

Definition json_of (r : response) : result value :=
  match json r with
  | Some v => Ok v
  | None => Raise JSONDecodeError
  end.

(** ** Session state and messages *)

Record session_state : Type := {
  transcript : value;
  summary : value;
  stored_key_actions : value
}.

(** Lines 34-35 on a fresh session. *)
Definition initial_state : session_state :=
  {| transcript := JStr []; summary := JStr []; stored_key_actions := JStr [] |}.

Definition set_transcript (v : value) (st : session_state) : session_state :=
  {| transcript := v; summary := summary st;
     stored_key_actions := stored_key_actions st |}.

Definition set_summary (v : value) (st : session_state) : session_state :=
  {| transcript := transcript st; summary := v;
     stored_key_actions := stored_key_actions st |}.

(** The status messages of the two actions. *)
Inductive message : Type :=
| Error (body : string)
| ErrorParsing (e : exn)          (* f"Response parsing failed: {e}" *)
| ErrorGemini (body : str)        (* f"Gemini API error: {res.text}" *)
| Success (body : string)
| InfoStatus (status : value).    (* f"Status: {status}... Waiting..." *)

Definition is_error (m : message) : bool :=
  match m with
  | Error _ | ErrorParsing _ | ErrorGemini _ => true
  | _ => false
  end.

(** How an action ends: it finishes, an exception leaves it, or (for the
    model of the loop only) it is still polling after the polls it was
    given; [polls] counts the polls made. *)
Inductive outcome : Type :=
| Finished (st : session_state) (log : list message)
| Raised (e : exn) (st : session_state) (log : list message)
| Polling (st : session_state) (log : list message) (polls : nat).

Definition state_of (o : outcome) : session_state :=
  match o with
  | Finished st _ | Raised _ st _ | Polling st _ _ => st
  end.

Definition log_of (o : outcome) : list message :=
  match o with
  | Finished _ log | Raised _ _ log | Polling _ log _ => log
  end.

(** ** Transcription (lines 44-81) *)

(** The speech-to-text provider, as the action sees it: the response to
    the upload, the response to the job request for an upload URL, and the
    response to the [n]-th poll of a job. *)
Record provider : Type := {
  upload : response;
  request_transcript : value -> response;
  poll : value -> nat -> response
}.

(** [poll_res.json()["status"]] and [poll_res.json()["text"]] *)
Definition poll_status (poll_res : response) : result value :=
  body <- json_of poll_res ;; item "status" body.

Definition poll_text (poll_res : response) : result value :=
  body <- json_of poll_res ;; item "text" body.

(** [status in ["completed", "error"]] *)
Definition terminal (status : value) : bool :=
  equals status "completed" || equals status "error".

(** Lines 69-81.  [fuel] bounds the polls the model makes; the loop itself
    has no bound.  [n] is the number of polls made so far. *)
Fixpoint poll_loop (get : nat -> response) (fuel : nat) (status : value)
    (n : nat) (st : session_state) (log : list message) : outcome :=
  if terminal status then Finished st log
  else
    match fuel with
    | O => Polling st log n
    | S fuel' =>
        let poll_res := get n in
        match poll_status poll_res with
        | Raise e => Raised e st log
        | Ok status =>
            if equals status "completed" then
              match poll_text poll_res with
              | Raise e => Raised e st log
              | Ok t =>
                  poll_loop get fuel' status (S n) (set_transcript t st)
                    (log ++ [Success "✅ Transcription completed!"])
              end
            else if equals status "error" then
              poll_loop get fuel' status (S n) st
                (log ++ [Error "Transcription failed."])
            else
              poll_loop get fuel' status (S n) st (log ++ [InfoStatus status])
        end
    end.

(** Lines 45-81, entered when a file was chosen and the button pressed. *)
Definition transcribe (p : provider) (fuel : nat) (st : session_state)
  : outcome :=
  let upload_res := upload p in
  if negb (status_code upload_res =? 200)%Z then
    Finished st [Error "Audio upload failed. Please check your API key or network."]
  else
    match body <- json_of upload_res ;; item "upload_url" body with
    | Raise e => Raised e st []
    | Ok upload_url =>
        let transcript_res := request_transcript p upload_url in
        if negb (status_code transcript_res =? 200)%Z then
          Finished st [Error "Failed to request transcription."]
        else
          match body <- json_of transcript_res ;; item "id" body with
          | Raise e => Raised e st []
          | Ok transcript_id =>
              poll_loop (poll p transcript_id) fuel (JStr (lit "queued")) 0
                st []
          end
    end.

(** ** Summarisation (lines 100-127) *)

(** [res.json()["candidates"][0]["content"]["parts"][0]["text"]] *)
Definition gemini_text (res : response) : result value :=
  body <- json_of res ;;
  candidates <- item "candidates" body ;;
  candidate <- item0 candidates ;;
  content <- item "content" candidate ;;
  parts <- item "parts" content ;;
  part <- item0 parts ;;
  item "text" part.

(** Lines 117-127, for the response [res] of the generative-text
    provider. *)
Definition generate_summary (res : response) (st : session_state)
  : outcome :=
  if (status_code res =? 200)%Z then
    match gemini_text res with
    | Ok gemini_text =>
        Finished (set_summary gemini_text st) [Success "✅ Summary generated!"]
    | Raise e => Finished st [ErrorParsing e]
    end
  else Finished st [ErrorGemini (text res)].

(** ** Vocabulary of the statements *)

(** [trimmed s]: [s] neither starts nor ends with a whitespace character. *)
Definition trimmed (s : str) : bool :=
  match s with
  | [] => true
  | c :: _ => negb (is_space c) && negb (is_space (last s c))
  end.

(** The lines of a text: its pieces between newline characters. *)
Definition lines (s : str) : list str := split_char newline s.

(** The messages of [k] polls, from poll [n] on, that each report a status
    other than the two terminal ones; [sts i] is the status of poll [i]. *)
Definition waiting (sts : nat -> value) (n k : nat) : list message :=
  map (fun i => InfoStatus (sts i)) (seq n k).

(** An action failed when an exception left it or it put an error message
    on the page. *)
Definition failed (o : outcome) : bool :=
  match o with
  | Raised _ _ _ => true
  | _ => existsb is_error (log_of o)
  end.

(** Sample inputs: a poll response, a job that is reported as processing
    twice and then as completed, a provider that rejects the upload, and a
    session that already holds a transcript and a summary. *)
Definition poll_response (status : string) (result : value) : response :=
  {| status_code := 200;
     text := [];
     json := Some (JObj [(lit "status", JStr (lit status));
                         (lit "text", result)]) |}.

Definition sample_polls (n : nat) : response :=
  if n <? 2 then poll_response "processing" JNull
  else poll_response "completed" (JStr (lit "Patient reports a cough.")).

Definition sample_statuses (n : nat) : value := JStr (lit "processing").

Definition rejecting_provider : provider :=
  {| upload := {| status_code := 401; text := lit "Unauthorized";
                  json := None |};
     request_transcript := fun _ => poll_response "queued" JNull;
     poll := fun _ => sample_polls |}.

Definition sample_state : session_state :=
  set_summary (JStr (lit "Summary: earlier visit."))
    (set_transcript (JStr (lit "Earlier transcript.")) initial_state).

(** The fragments as the specification words them: replace every semicolon
    by a period, split on periods, strip each fragment, discard the empty
    ones. *)
Definition spec_fragments (key_actions : str) : list str :=
  filter truthy
    (map strip (split_char "." (replace_char ";" "." key_actions))).

(** The bullet list of the specification: each fragment prefixed with
    ["- "], joined with newlines. *)
Definition spec_bullets (fragments : list str) : str :=
  join [newline] (map (app bullet) fragments).

(** The Summary view as the specification words it: the text before the
    marker (else the full text), and, when that text carries the label once
    surrounding whitespace is ignored and case is folded, the text that
    follows the label. *)
Definition spec_summary_view (summary : str) : str :=
  let body :=
    match find_first marker summary with
    | Some (pre, _) => pre
    | None => summary
    end in
  if startswith label (lower (strip body))
  then strip (slice_from (length label) (strip body))
  else body.

(** ** Further parts of the script *)

(** [st.session_state] as the dictionary it is: keys in insertion order. *)
Definition store := list (str * value).

(** [d.setdefault(key, default)], for the dictionary it leaves. *)
Definition setdefault (key : string) (default : value) (d : store) : store :=
  match lookup (lit key) d with
  | Some _ => d
  | None => d ++ [(lit key, default)]
  end.

Definition session_keys : list string :=
  ["transcript"; "summary"; "key_actions"]%string.

(** Lines 34-35, run at every rerun of the script. *)
Definition init_session (d : store) : store :=
  fold_left (fun d key => setdefault key (JStr []) d) session_keys d.

(** Lines 83-91: what the Transcription page shows for a stored
    transcript. *)
Definition transcript_section (transcript : str) : list widget :=
  if truthy transcript then
    [ Subheader "📝 Transcript";
      TextArea "Transcript" transcript 300;
      DownloadButton "⬇️ Download Transcript" transcript
        "transcript.txt" "text/plain" ]
  else [].

(** Lines 94-99 and 129-143: the Summary page of a rerun in which the
    button is not pressed. *)
Inductive element : Type :=
| Shown (w : widget)
| Button (label : string).

Definition summary_page_idle (transcript summary : str) : list element :=
  Shown (Subheader "Summarize the Transcript") ::
  if negb (truthy transcript) then
    [ Shown (Warning "Please transcribe an audio file first.") ]
  else
    Button "🧠 Generate Summary" :: map Shown (summary_section summary).

(** [kept c]: [c] is neither whitespace nor one of the two separators of
    line 157. *)
Definition kept (c : ascii) : bool :=
  negb (is_space c) && negb (Ascii.eqb c ".") && negb (Ascii.eqb c ";").

(** An action ended when it is not still polling. *)
Definition ended (o : outcome) : bool :=
  match o with
  | Polling _ _ _ => false
  | _ => true
  end.

(** More sample inputs: a response in the shape the generative-text
    provider documents, a provider whose job completes at the third poll, a
    provider whose job completes with an empty text, and polls whose
    completed response lacks the text. *)
Definition gemini_response (result : value) : response :=
  {| status_code := 200;
     text := [];
     json := Some (JObj [(lit "candidates",
               JArr [JObj [(lit "content",
                 JObj [(lit "parts",
                   JArr [JObj [(lit "text", result)]])])]])]) |}.

Definition json_response (key : string) (v : value) : response :=
  {| status_code := 200; text := []; json := Some (JObj [(lit key, v)]) |}.

Definition working_provider : provider :=
  {| upload := json_response "upload_url" (JStr (lit "https://cdn/u/1"));
     request_transcript := fun _ => json_response "id" (JStr (lit "job-1"));
     poll := fun _ => sample_polls |}.

Definition silent_provider : provider :=
  {| upload := json_response "upload_url" (JStr (lit "https://cdn/u/2"));
     request_transcript := fun _ => json_response "id" (JStr (lit "job-2"));
     poll := fun _ _ => poll_response "completed" (JStr []) |}.

(** Polls answered with an error body, which holds no status. *)
Definition statusless_polls (n : nat) : response :=
  {| status_code := 401;
     text := [];
     json := Some (JObj [(lit "error",
                          JStr (lit "Authentication error"))]) |}.

Definition truncated_polls (n : nat) : response :=
  if n <? 1 then poll_response "queued" JNull
  else json_response "status" (JStr (lit "completed")).

(** * Properties *)

(** ** Facts about the string operations *)

Section StringFacts.

Lemma strip_prefix_Some (p s r : str) :
  strip_prefix p s = Some r <-> s = p ++ r.
Proof.
  revert s; induction p as [|a p IH]; intros s; simpl.
  - split; [intros [= ->]; reflexivity | intros ->; reflexivity].
  - destruct s as [|b s]; [split; discriminate|].
    destruct (Ascii.eqb_spec a b) as [->|Hab].
    + rewrite IH. split; [intros ->; reflexivity | intros [= ->]; reflexivity].
    + split; [discriminate | intros [= -> _]; contradiction].
Qed.

Lemma startswith_true (p s : str) :
  startswith p s = true <-> exists r, s = p ++ r.
Proof.
  unfold startswith. destruct (strip_prefix p s) as [r|] eqn:E.
  - apply strip_prefix_Some in E. split; [eauto | reflexivity].
  - split; [discriminate|]. intros [r Hr].
    apply strip_prefix_Some in Hr. congruence.
Qed.

Lemma startswith_app (p r : str) : startswith p (p ++ r) = true.
Proof. apply startswith_true; eauto. Qed.

Lemma contains_true (sub s : str) :
  contains sub s = true <-> exists a b, s = a ++ sub ++ b.
Proof.
  induction s as [|c s IH]; simpl.
  - rewrite orb_false_r, startswith_true. split.
    + intros [r Hr]. exists [], r. exact Hr.
    + intros (a & b & H). destruct a; [eauto|discriminate].
  - rewrite orb_true_iff, startswith_true, IH. split.
    + intros [[r Hr]|(a & b & H)].
      * exists [], r. exact Hr.
      * exists (c :: a), b. simpl. now rewrite H.
    + intros (a & b & H). destruct a as [|x a]; simpl in H.
      * left; eauto.
      * right. injection H as _ H. eauto.
Qed.

Lemma contains_char (c : ascii) (s : str) :
  contains [c] s = true <-> In c s.
Proof.
  rewrite contains_true. split.
  - intros (a & b & ->). apply in_or_app. right. now left.
  - intros H. apply in_split in H as (a & b & ->). exists a, b. reflexivity.
Qed.

Lemma contains_prefix (sub r : str) : contains sub (sub ++ r) = true.
Proof. apply contains_true. exists [], r. reflexivity. Qed.

(** [find_first] finds the leftmost occurrence, and finds one exactly when
    [contains] holds. *)
Lemma find_first_Some (sep s pre post : str) :
  find_first sep s = Some (pre, post) ->
  s = pre ++ sep ++ post /\
  (forall a b, s = a ++ sep ++ b -> length pre <= length a).
Proof.
  revert pre post; induction s as [|c s IH]; intros pre post; simpl.
  - destruct (strip_prefix sep []) as [r|] eqn:E; [|discriminate].
    intros [= <- <-]. apply strip_prefix_Some in E.
    split; [exact E | intros; simpl; lia].
  - destruct (strip_prefix sep (c :: s)) as [r|] eqn:E.
    + intros [= <- <-]. apply strip_prefix_Some in E.
      split; [exact E | intros; simpl; lia].
    + destruct (find_first sep s) as [[pre' post']|]; [|discriminate].
      intros [= <- <-]. destruct (IH pre' post' eq_refl) as [Hs Hmin].
      split; [simpl; now rewrite <- Hs|].
      intros a b Hab. destruct a as [|x a]; simpl in Hab.
      * apply strip_prefix_Some in Hab. congruence.
      * injection Hab as _ Hab. simpl. apply Hmin in Hab. lia.
Qed.

Lemma find_first_None (sep s : str) :
  find_first sep s = None <-> contains sep s = false.
Proof.
  induction s as [|c s IH]; simpl; unfold startswith.
  - destruct (strip_prefix sep []); simpl; split; congruence.
  - destruct (strip_prefix sep (c :: s)); simpl; [split; congruence|].
    rewrite <- IH.
    destruct (find_first sep s) as [[? ?]|]; split; congruence.
Qed.

(** *** strip *)

Lemma lstrip_split (s : str) :
  exists a, s = a ++ lstrip s /\ forallb is_space a = true.
Proof.
  induction s as [|c s (a & Ha & Hsp)]; simpl.
  - exists []. split; reflexivity.
  - destruct (is_space c) eqn:E.
    + exists (c :: a). simpl. rewrite E, Hsp. split; [now rewrite <- Ha | reflexivity].
    + exists []. split; reflexivity.
Qed.

Lemma rstrip_split (s : str) :
  exists b, s = rstrip s ++ b /\ forallb is_space b = true.
Proof.
  induction s as [|c s (b & Hb & Hsp)]; simpl.
  - exists []. split; reflexivity.
  - destruct (rstrip s) as [|x r] eqn:E.
    + destruct (is_space c) eqn:Ec.
      * exists (c :: b). simpl in *. rewrite Ec, Hsp. split; [now rewrite <- Hb | reflexivity].
      * exists b. simpl in *. split; [now rewrite <- Hb | exact Hsp].
    + exists b. split; [simpl in *; now f_equal | exact Hsp].
Qed.

(** [strip] removes a run of whitespace at each end and nothing else. *)
Lemma strip_split (s : str) :
  exists a b, s = a ++ strip s ++ b /\
              forallb is_space a = true /\ forallb is_space b = true.
Proof.
  destruct (lstrip_split s) as (a & Ha & Hsa).
  destruct (rstrip_split (lstrip s)) as (b & Hb & Hsb).
  exists a, b. unfold strip. rewrite <- Hb. auto.
Qed.

Lemma strip_incl (s : str) (x : ascii) : In x (strip s) -> In x s.
Proof.
  destruct (strip_split s) as (a & b & Hs & _). intros H.
  rewrite Hs. apply in_or_app. right. apply in_or_app. now left.
Qed.

Lemma lstrip_head (s r : str) (c : ascii) :
  lstrip s = c :: r -> is_space c = false.
Proof.
  induction s as [|x s IH]; simpl; [discriminate|].
  destruct (is_space x) eqn:E; [exact IH|]. now intros [= <- _].
Qed.

Lemma rstrip_head (s r : str) (c : ascii) :
  rstrip s = c :: r -> exists s', s = c :: s'.
Proof.
  destruct s as [|x s]; simpl; [discriminate|].
  destruct (rstrip s); [destruct (is_space x)|]; intros [= <- _]; eauto.
Qed.

Lemma rstrip_last (s r : str) (c d : ascii) :
  rstrip s = c :: r -> is_space (last (c :: r) d) = false.
Proof.
  revert c r; induction s as [|x s IH]; intros c r; simpl; [discriminate|].
  destruct (rstrip s) as [|y t] eqn:E.
  - destruct (is_space x) eqn:Ex; [discriminate|]. now intros [= <- <-].
  - intros [= <- <-]. exact (IH y t eq_refl).
Qed.

(** A stripped string neither starts nor ends with whitespace. *)
Lemma strip_trimmed (s : str) : trimmed (strip s) = true.
Proof.
  unfold trimmed, strip. destruct (rstrip (lstrip s)) as [|c r] eqn:E; [reflexivity|].
  rewrite (rstrip_last _ _ _ c E), andb_true_r.
  destruct (rstrip_head _ _ _ E) as [s' Hs'].
  now rewrite (lstrip_head _ _ _ Hs').
Qed.

(** *** replace, split and join on one character *)

Lemma replace_char_In (a b x : ascii) (s : str) :
  In x (replace_char a b s) -> (x = b \/ In x s) /\ (a <> b -> x <> a).
Proof.
  unfold replace_char. rewrite in_map_iff. intros (y & Hy & Hin).
  revert Hy. destruct (Ascii.eqb_spec y a) as [E|Hne]; intros <-.
  - split; [now left | congruence].
  - split; [now right | auto].
Qed.

Lemma split_char_nonempty (c : ascii) (s : str) : split_char c s <> [].
Proof.
  destruct s as [|a s]; simpl; [discriminate|].
  destruct (Ascii.eqb a c); [discriminate|].
  destruct (split_char c s); discriminate.
Qed.

Lemma split_char_In (c x : ascii) (s f : str) :
  In f (split_char c s) -> In x f -> In x s /\ x <> c.
Proof.
  revert f; induction s as [|a s IH]; intros f; simpl.
  - intros [<-|[]] [].
  - destruct (Ascii.eqb_spec a c) as [->|Hne].
    + intros [<-|Hf] Hx; [destruct Hx|]. destruct (IH f Hf Hx). auto.
    + destruct (split_char c s) as [|g gs] eqn:E.
      * intros [<-|[]] [<-|[]]. auto.
      * intros [<-|Hf] Hx.
        -- destruct Hx as [<-|Hx]; [auto|].
           destruct (IH g (or_introl eq_refl) Hx). auto.
        -- destruct (IH f (or_intror Hf) Hx). auto.
Qed.

Lemma join_cons (sep x : str) (l : list str) :
  l <> [] -> join sep (x :: l) = x ++ sep ++ join sep l.
Proof. destruct l; [congruence | reflexivity]. Qed.

(** Splitting a joined list at the separator gives the list back, when no
    element holds the separator. *)
Lemma split_char_join (c : ascii) (l : list str) :
  l <> [] -> (forall f, In f l -> ~ In c f) ->
  split_char c (join [c] l) = l.
Proof.
  induction l as [|x l IH]; [congruence|]. intros _ Hfree.
  assert (Hx : ~ In c x) by (apply Hfree; now left).
  destruct l as [|y l].
  - simpl. clear IH Hfree. induction x as [|a x IHx]; [reflexivity|].
    simpl. destruct (Ascii.eqb_spec a c) as [->|Hne]; [exfalso; apply Hx; now left|].
    rewrite IHx; [reflexivity | intros H; apply Hx; now right].
  - rewrite join_cons by discriminate.
    assert (IH' : split_char c (join [c] (y :: l)) = y :: l).
    { apply IH; [discriminate | intros f Hf; apply Hfree; now right]. }
    clear IH Hfree. induction x as [|a x IHx].
    + cbn [app split_char]. rewrite Ascii.eqb_refl. now rewrite IH'.
    + rewrite <- app_comm_cons. cbn [split_char].
      destruct (Ascii.eqb_spec a c) as [->|Hne]; [exfalso; apply Hx; now left|].
      rewrite IHx; [reflexivity | intros H; apply Hx; now right].
Qed.

(** Joining the pieces of a split at the separator gives the string back. *)
Lemma join_split_char (c : ascii) (s : str) :
  join [c] (split_char c s) = s.
Proof.
  induction s as [|a s IH]; [reflexivity|]. cbn [split_char].
  destruct (Ascii.eqb_spec a c) as [->|Hne].
  - rewrite join_cons by apply split_char_nonempty. now rewrite IH.
  - pose proof (split_char_nonempty c s) as Hne'.
    destruct (split_char c s) as [|f fs]; [congruence|].
    destruct fs as [|g gs].
    + simpl in *. now rewrite IH.
    + rewrite join_cons by discriminate. rewrite join_cons in IH by discriminate.
      rewrite <- IH. reflexivity.
Qed.

End StringFacts.


(** ** The Key Insights text *)

Section KeyActions.

Lemma points_spec_fragments (ka : str) : points ka = spec_fragments ka.
Proof.
  unfold points, spec_fragments.
  induction (split_char "." (replace_char ";" "." ka)) as [|f fs IH];
    [reflexivity|].
  simpl. destruct (truthy (strip f)); simpl; now rewrite IH.
Qed.

Lemma truthy_nonempty (s : str) : truthy s = true <-> s <> [].
Proof. destruct s; simpl; split; congruence. Qed.

Lemma already_formatted_verbatim (ka : str) :
  already_formatted ka = true -> display_key_actions ka = ka.
Proof.
  intros H. unfold display_key_actions. now rewrite H, andb_false_r.
Qed.

Lemma display_truthy (ka : str) :
  truthy ka = true -> truthy (display_key_actions ka) = true.
Proof.
  intros H. unfold display_key_actions.
  destruct (truthy ka && negb (already_formatted ka)); [|exact H].
  destruct (points ka) as [|p [|q ps]]; try exact H. reflexivity.
Qed.

Lemma shown_nonempty (ka : str) :
  truthy ka = true -> shown_key_actions ka = display_key_actions ka.
Proof.
  intros H. unfold shown_key_actions, py_or. now rewrite display_truthy.
Qed.

(** Every character of a fragment is a character of the key-actions text
    other than the two separators. *)
Lemma points_chars (ka pt : str) (x : ascii) :
  In pt (points ka) -> In x pt ->
  In x ka /\ x <> "."%char /\ x <> ";"%char.
Proof.
  unfold points. rewrite in_map_iff. intros (f & <- & Hf) Hx.
  apply filter_In in Hf as [Hf _]. apply strip_incl in Hx.
  destruct (split_char_In _ _ _ _ Hf Hx) as [Hr Hdot].
  apply replace_char_In in Hr as [[->|Hin] Hsemi]; [congruence|].
  repeat split; [exact Hin | exact Hdot | apply Hsemi; discriminate].
Qed.

Lemma points_shape (ka pt : str) :
  In pt (points ka) -> pt <> [] /\ trimmed pt = true.
Proof.
  unfold points. rewrite in_map_iff. intros (f & <- & Hf).
  apply filter_In in Hf as [_ Hf].
  split; [now apply truthy_nonempty | apply strip_trimmed].
Qed.

(** The reformatted text starts with a bullet, so it counts as formatted. *)
Lemma bullets_formatted (pts : list str) :
  pts <> [] ->
  already_formatted (join [newline] (map (fun pt => bullet ++ pt) pts)) = true.
Proof.
  intros H. unfold already_formatted. apply orb_true_iff. left.
  destruct pts as [|p [|q ps]]; [congruence| |].
  - apply contains_prefix.
  - cbn [map]. rewrite join_cons by discriminate.
    rewrite <- app_assoc. apply contains_prefix.
Qed.

(** The formatting step is idempotent on every input. *)
Lemma display_key_actions_idempotent (ka : str) :
  display_key_actions (display_key_actions ka) = display_key_actions ka.
Proof.
  unfold display_key_actions at 2 3.
  destruct (truthy ka && negb (already_formatted ka)) eqn:E.
  - cbv zeta. destruct (1 <? length (points ka)) eqn:L.
    + apply already_formatted_verbatim, bullets_formatted.
      intros Hnil. rewrite Hnil in L. discriminate.
    + unfold display_key_actions. now rewrite E, L.
  - unfold display_key_actions. now rewrite E.
Qed.

End KeyActions.

(** ** Claims on the displayed texts *)

(** C1.  For a key-actions text that is non-empty and holds neither a
    newline nor ["- "], the displayed value is obtained from the fragments
    that survive (semicolons replaced by periods, split on periods, each
    fragment stripped, empty ones discarded): when more than one survives,
    each is prefixed with ["- "] and they are joined with newlines.  A text
    that holds a newline or ["- "] is shown verbatim.  The text
    "Check vitals. Schedule follow-up. Order bloodwork." gives the three
    lines "- Check vitals", "- Schedule follow-up", "- Order bloodwork". *)
Theorem shown_key_actions_bullets (ka : str) :
  (truthy ka = true ->
   contains [newline] ka = false -> contains bullet ka = false ->
   1 < length (spec_fragments ka) ->
   shown_key_actions ka = spec_bullets (spec_fragments ka)) /\
  (contains [newline] ka = true \/ contains bullet ka = true ->
   shown_key_actions ka = ka) /\
  lines (shown_key_actions
           (lit "Check vitals. Schedule follow-up. Order bloodwork."))
  = [lit "- Check vitals"; lit "- Schedule follow-up";
     lit "- Order bloodwork"].
Proof.
  split; [|split].
  - intros Hne Hnl Hb Hlen. rewrite shown_nonempty by exact Hne.
    unfold display_key_actions, already_formatted.
    rewrite Hne, Hnl, Hb, points_spec_fragments. cbn [orb negb andb].
    apply Nat.ltb_lt in Hlen. rewrite Hlen. reflexivity.
  - intros H.
    assert (Hf : already_formatted ka = true).
    { unfold already_formatted. apply orb_true_iff. tauto. }
    assert (Hne : truthy ka = true).
    { destruct ka; [|reflexivity]. destruct H; discriminate. }
    rewrite shown_nonempty by exact Hne.
    now apply already_formatted_verbatim.
  - reflexivity.
Qed.

Lemma shown_key_actions_bullets_witness :
  shown_key_actions (lit "Rest; drink fluids.")
  = lit "- Rest" ++ [newline] ++ lit "- drink fluids" /\
  shown_key_actions (lit "- Rest") = lit "- Rest".
Proof.
  split.
  - apply (proj1 (shown_key_actions_bullets (lit "Rest; drink fluids.")));
      [reflexivity | reflexivity | reflexivity | simpl; lia].
  - apply (proj1 (proj2 (shown_key_actions_bullets (lit "- Rest")))).
    right. reflexivity.
Defined.

(** C3.  For a summary that holds the marker "Key Actions:", the extracted
    key-actions text is the text strictly after the first occurrence of the
    marker, trimmed of surrounding whitespace: the summary is
    [pre ++ marker ++ post] with no occurrence of the marker starting
    before the end of [pre], and the extracted text is [post] without a run
    of whitespace at each end. *)
Theorem key_actions_after_first_marker (summary : str) :
  contains marker summary = true ->
  exists pre post,
    summary = pre ++ marker ++ post /\
    (forall a b, summary = a ++ marker ++ b -> length pre <= length a) /\
    key_actions summary = strip post /\
    exists l r, post = l ++ key_actions summary ++ r /\
                forallb is_space l = true /\ forallb is_space r = true /\
                trimmed (key_actions summary) = true.
Proof.
  intros H. unfold key_actions, split_once. rewrite H.
  destruct (find_first marker summary) as [[pre post]|] eqn:E.
  - exists pre, post. destruct (find_first_Some _ _ _ _ E) as [Hs Hmin].
    repeat split; try assumption.
    destruct (strip_split post) as (l & r & Hp & Hl & Hr).
    exists l, r. cbn [final last].
    repeat split; try assumption. apply strip_trimmed.
  - apply find_first_None in E. congruence.
Qed.

Lemma key_actions_after_first_marker_witness :
  exists pre post,
    lit "Summary: ok. Key Actions: Rest. Key Actions: none "
      = pre ++ marker ++ post /\
    key_actions (lit "Summary: ok. Key Actions: Rest. Key Actions: none ")
      = strip post /\
    strip post = lit "Rest. Key Actions: none".
Proof.
  destruct (key_actions_after_first_marker
              (lit "Summary: ok. Key Actions: Rest. Key Actions: none ")
              eq_refl)
    as (pre & post & Hs & _ & Hk & _).
  exists pre, post. repeat split; [exact Hs | exact Hk |].
  rewrite <- Hk. reflexivity.
Defined.

(** C5.  Applying the key-actions formatting to its own output, when that
    output is already bulleted (it holds ["- "] or a newline), gives the
    output back unchanged. *)
Theorem display_key_actions_stable (ka : str) :
  already_formatted (display_key_actions ka) = true ->
  display_key_actions (display_key_actions ka) = display_key_actions ka.
Proof. apply already_formatted_verbatim. Qed.

Lemma display_key_actions_stable_witness :
  display_key_actions (display_key_actions (lit "Rest; drink fluids."))
  = lit "- Rest" ++ [newline] ++ lit "- drink fluids".
Proof.
  rewrite (display_key_actions_stable (lit "Rest; drink fluids.") eq_refl).
  reflexivity.
Defined.

(** C8.  When the reformatting applies (the key-actions text is non-empty,
    holds neither ["- "] nor a newline, and more than one fragment
    survives), the lines of the output are the fragments prefixed with
    ["- "]; no line holds a period or a semicolon, and what follows the
    prefix is a non-empty fragment without leading or trailing
    whitespace. *)
Theorem bullet_lines_shape (ka : str) :
  truthy ka = true -> already_formatted ka = false ->
  1 < length (points ka) ->
  lines (display_key_actions ka) = map (app bullet) (points ka) /\
  forall l, In l (lines (display_key_actions ka)) ->
    ~ In "."%char l /\ ~ In ";"%char l /\
    exists f, l = bullet ++ f /\ f <> [] /\ trimmed f = true.
Proof.
  intros Hne Hfmt Hlen.
  assert (Hnl : ~ In newline ka).
  { intros Hin. apply contains_char in Hin. unfold already_formatted in Hfmt.
    rewrite Hin, orb_true_r in Hfmt. discriminate. }
  assert (Hout : display_key_actions ka
                 = join [newline] (map (app bullet) (points ka))).
  { unfold display_key_actions. rewrite Hne, Hfmt. cbn [negb andb].
    apply Nat.ltb_lt in Hlen. now rewrite Hlen. }
  assert (Hlines : lines (display_key_actions ka) = map (app bullet) (points ka)).
  { rewrite Hout. apply split_char_join.
    - destruct (points ka); [simpl in Hlen; lia | discriminate].
    - intros f Hf Hin. apply in_map_iff in Hf as (pt & <- & Hpt).
      apply in_app_or in Hin as [Hin|Hin].
      + simpl in Hin. unfold newline in Hin.
        destruct Hin as [Hin|[Hin|[]]]; discriminate.
      + apply Hnl. exact (proj1 (points_chars _ _ _ Hpt Hin)). }
  split; [exact Hlines|].
  intros l Hl. rewrite Hlines in Hl. apply in_map_iff in Hl as (pt & <- & Hpt).
  repeat split.
  - intros Hin. apply in_app_or in Hin as [Hin|Hin].
    + simpl in Hin. destruct Hin as [Hin|[Hin|[]]]; discriminate.
    + now destruct (points_chars _ _ _ Hpt Hin) as (_ & Hdot & _).
  - intros Hin. apply in_app_or in Hin as [Hin|Hin].
    + simpl in Hin. destruct Hin as [Hin|[Hin|[]]]; discriminate.
    + now destruct (points_chars _ _ _ Hpt Hin) as (_ & _ & Hsemi).
  - exists pt. destruct (points_shape _ _ Hpt). auto.
Qed.

Lemma bullet_lines_shape_witness :
  lines (display_key_actions (lit "Rest ; drink fluids. "))
  = [lit "- Rest"; lit "- drink fluids"].
Proof.
  rewrite (proj1 (bullet_lines_shape (lit "Rest ; drink fluids. ")
                    eq_refl eq_refl ltac:(simpl; lia))).
  reflexivity.
Defined.

(** C9.  When the key-actions text is non-empty, holds neither ["- "] nor
    a newline, and at most one fragment survives the split, the displayed
    value is the key-actions text itself, verbatim (a trailing period or
    semicolon included), not the stripped fragment. *)
Theorem single_fragment_verbatim (ka : str) :
  truthy ka = true -> already_formatted ka = false ->
  length (points ka) <= 1 ->
  shown_key_actions ka = ka /\
  (forall c, last ka c = "."%char \/ last ka c = ";"%char ->
             ~ In (shown_key_actions ka) (points ka)).
Proof.
  intros Hne Hfmt Hlen.
  assert (Hshown : shown_key_actions ka = ka).
  { rewrite shown_nonempty by exact Hne. unfold display_key_actions.
    rewrite Hne, Hfmt. cbn [negb andb].
    apply Nat.ltb_ge in Hlen. now rewrite Hlen. }
  split; [exact Hshown|].
  intros c Hlast Hin. rewrite Hshown in Hin.
  assert (Hc : In (last ka c) ka).
  { destruct ka as [|a ka]; [discriminate|].
    destruct (exists_last (l := a :: ka)) as (l' & z & Hz); [discriminate|].
    rewrite Hz, last_last. apply in_or_app. right. now left. }
  destruct (points_chars _ _ _ Hin Hc) as (_ & Hdot & Hsemi).
  destruct Hlast; contradiction.
Qed.

Lemma single_fragment_verbatim_witness :
  shown_key_actions (lit "Rest;") = lit "Rest;" /\
  points (lit "Rest;") = [lit "Rest"].
Proof.
  split; [|reflexivity].
  apply (proj1 (single_fragment_verbatim (lit "Rest;")
                  eq_refl eq_refl ltac:(simpl; lia))).
Defined.

(** C10.  On the Summary page and on the Key Insights page the download
    button serves exactly the text of the text area: the Summary page serves
    the text before the marker with the label removed (not the stored
    summary), the Key Insights page serves the bullet-formatted key actions,
    or "No key actions found." when they are empty. *)
Theorem downloads_serve_displayed_text (summary : str) :
  truthy summary = true ->
  text_areas (summary_section summary) = [summary_text summary] /\
  downloads (summary_section summary)
    = [("summary.txt"%string, summary_text summary)] /\
  text_areas (key_insights_page summary)
    = [shown_key_actions (key_actions summary)] /\
  downloads (key_insights_page summary)
    = [("key_insights.txt"%string, shown_key_actions (key_actions summary))] /\
  (display_key_actions (key_actions summary) = [] ->
   shown_key_actions (key_actions summary) = placeholder) /\
  (display_key_actions (key_actions summary) <> [] ->
   shown_key_actions (key_actions summary)
   = display_key_actions (key_actions summary)).
Proof.
  intros H. unfold summary_section, key_insights_page. rewrite H.
  repeat split.
  - unfold shown_key_actions. now intros ->.
  - unfold shown_key_actions, py_or.
    destruct (display_key_actions (key_actions summary)); [congruence | reflexivity].
Qed.

Lemma downloads_serve_displayed_text_witness :
  downloads (summary_section (lit "Summary: Mild cold. Key Actions: Rest."))
    = [("summary.txt"%string, lit "Mild cold.")] /\
  text_areas (summary_section (lit "Summary: Mild cold. Key Actions: Rest."))
    = [lit "Mild cold."] /\
  downloads (key_insights_page (lit "Summary: Mild cold. Key Actions:"))
    = [("key_insights.txt"%string, lit "No key actions found.")].
Proof.
  destruct (downloads_serve_displayed_text
              (lit "Summary: Mild cold. Key Actions: Rest.") eq_refl)
    as (Ha & Hd & _).
  destruct (downloads_serve_displayed_text
              (lit "Summary: Mild cold. Key Actions:") eq_refl)
    as (_ & _ & _ & Hk & _).
  rewrite Ha, Hd, Hk. repeat split.
Defined.

(** ** The Summary text *)

Section SummaryView.

Lemma is_space_to_lower (c : ascii) : is_space (to_lower c) = is_space c.
Proof. destruct c as [[] [] [] [] [] [] [] []]; reflexivity. Qed.

Lemma lstrip_lower (s : str) : lstrip (lower s) = lower (lstrip s).
Proof.
  induction s as [|c s IH]; [reflexivity|]. simpl.
  rewrite is_space_to_lower. destruct (is_space c); [exact IH | reflexivity].
Qed.

Lemma rstrip_lower (s : str) : rstrip (lower s) = lower (rstrip s).
Proof.
  induction s as [|c s IH]; [reflexivity|]. simpl. fold (lower s).
  rewrite IH, is_space_to_lower.
  destruct (rstrip s); [destruct (is_space c)|]; reflexivity.
Qed.

Lemma strip_lower (s : str) : strip (lower s) = lower (strip s).
Proof. unfold strip. now rewrite lstrip_lower, rstrip_lower. Qed.

Lemma rstrip_app_space (y ws : str) :
  forallb is_space ws = true -> rstrip (y ++ ws) = rstrip y.
Proof.
  intros H. induction y as [|c y IH].
  - simpl. induction ws as [|w ws IHw]; [reflexivity|]. simpl in *.
    apply andb_true_iff in H as [Hw Hws]. now rewrite (IHw Hws), Hw.
  - simpl. now rewrite IH.
Qed.

Lemma lstrip_app_space (y ws : str) :
  forallb is_space ws = true ->
  exists ws', forallb is_space ws' = true /\ lstrip (y ++ ws) = lstrip y ++ ws'.
Proof.
  intros H. induction y as [|c y (ws' & Hws' & IH)].
  - exists []. split; [reflexivity|]. simpl.
    induction ws as [|w ws IHw]; [reflexivity|]. simpl in *.
    apply andb_true_iff in H as [Hw Hws]. now rewrite Hw, (IHw Hws).
  - simpl. destruct (is_space c).
    + exists ws'. auto.
    + exists ws. auto.
Qed.

Lemma strip_app_space (y ws : str) :
  forallb is_space ws = true -> strip (y ++ ws) = strip y.
Proof.
  intros H. unfold strip.
  destruct (lstrip_app_space y ws H) as (ws' & Hws' & ->).
  now apply rstrip_app_space.
Qed.

Lemma startswith_length (p s : str) :
  startswith p s = true -> length p <= length s.
Proof.
  intros H. apply startswith_true in H as [r ->]. rewrite length_app. lia.
Qed.

(** The text before the marker, as both definitions compute it. *)
Lemma before_marker (summary : str) :
  (if contains marker summary then first (split_once marker summary)
   else summary)
  = match find_first marker summary with
    | Some (pre, _) => pre
    | None => summary
    end.
Proof.
  unfold split_once.
  destruct (find_first marker summary) as [[pre post]|] eqn:E.
  - destruct (contains marker summary) eqn:C; [reflexivity|].
    apply find_first_None in C. congruence.
  - apply find_first_None in E. now rewrite E.
Qed.

(** Without leading whitespace in the stored summary the code computes the
    Summary view of the specification. *)
Lemma summary_text_meets_spec (summary : str) :
  (forall c r, summary = c :: r -> is_space c = false) ->
  summary_text summary = spec_summary_view summary.
Proof.
  intros Hhead. unfold summary_text, spec_summary_view.
  rewrite before_marker.
  set (body := match find_first marker summary with
               | Some (pre, _) => pre
               | None => summary
               end).
  assert (Hl : lstrip body = body).
  { assert (Hpre : exists rest, summary = body ++ rest).
    { subst body. destruct (find_first marker summary) as [[pre post]|] eqn:E.
      - apply find_first_Some in E as [E _]. eauto.
      - exists []. now rewrite app_nil_r. }
    destruct Hpre as [rest Hrest]. destruct body as [|c b]; [reflexivity|].
    simpl. now rewrite (Hhead c (b ++ rest) Hrest). }
  clearbody body.
  assert (Hs : strip body = rstrip body) by (unfold strip; now rewrite Hl).
  rewrite strip_lower, Hs.
  destruct (startswith label (lower (rstrip body))) eqn:Hlab; [|reflexivity].
  apply startswith_length in Hlab. unfold lower in Hlab.
  rewrite length_map in Hlab.
  destruct (rstrip_split body) as (ws & Hb & Hws).
  rewrite Hb at 1. unfold slice_from. rewrite skipn_app.
  replace (length label - length (rstrip body)) with 0 by lia.
  apply strip_app_space. exact Hws.
Qed.

Lemma no_marker_key_actions (summary : str) :
  contains marker summary = false ->
  key_actions summary = [] /\
  shown_key_actions (key_actions summary) = placeholder.
Proof.
  intros H. unfold key_actions. rewrite H. split; reflexivity.
Qed.

(** The key-actions text is empty unless the summary holds the marker. *)
Lemma key_actions_need_marker (summary : str) :
  shown_key_actions (key_actions summary) <> placeholder ->
  contains marker summary = true.
Proof.
  intros H. destruct (contains marker summary) eqn:C; [reflexivity|].
  destruct (no_marker_key_actions summary C). contradiction.
Qed.

End SummaryView.

(** C2.  The Summary view is the text before the marker "Key Actions:"
    (else the full text) with a leading "Summary:" label removed, the label
    being matched without regard to case or surrounding whitespace; the
    summary "Summary: Patient has a cold.Key Actions:Rest; drink fluids."
    shows as "Patient has a cold.".  The code matches the label on the
    stripped text but cuts eight characters off the unstripped one: with two
    leading spaces the view starts inside the label. *)
Theorem summary_text_cuts_unstripped_text :
  summary_text
    (lit "Summary: Patient has a cold.Key Actions:Rest; drink fluids.")
  = lit "Patient has a cold." /\
  summary_text (lit "  Summary: Patient has a cold.")
  = lit "y: Patient has a cold." /\
  spec_summary_view (lit "  Summary: Patient has a cold.")
  = lit "Patient has a cold.".
Proof. repeat split. Qed.

(** C4.  For a summary without the marker the key-actions view is the
    placeholder, and the Summary view is the input apart from the removal of
    the label.  The first half holds for every such summary
    ([no_marker_key_actions]); the second fails when whitespace precedes the
    label: "  Summary: x" has no marker and shows as "y: x". *)
Theorem no_marker_view_cuts_unstripped_text :
  contains marker (lit "  Summary: x") = false /\
  shown_key_actions (key_actions (lit "  Summary: x")) = placeholder /\
  summary_text (lit "  Summary: x") = lit "y: x" /\
  spec_summary_view (lit "  Summary: x") = lit "x".
Proof. repeat split. Qed.

(** ** The polling loop and the session state *)

Section Polling.

Variable get : nat -> response.
Variable sts : nat -> value.

Lemma equals_true (v : value) (s : string) :
  equals v s = true <-> v = JStr (lit s).
Proof.
  destruct v; simpl; try (split; discriminate).
  unfold str_eqb. destruct (list_eq_dec ascii_dec s0 (lit s)) as [->|Hne].
  - split; reflexivity.
  - split; [discriminate | intros [= ?]; contradiction].
Qed.

Lemma terminal_false (v : value) :
  terminal v = false -> equals v "completed" = false /\ equals v "error" = false.
Proof. unfold terminal. apply orb_false_iff. Qed.

Lemma poll_loop_terminal fuel status n st log :
  terminal status = true -> poll_loop get fuel status n st log = Finished st log.
Proof. intros H. destruct fuel; simpl; now rewrite H. Qed.

Lemma waiting_S n k : waiting sts n (S k) = InfoStatus (sts n) :: waiting sts (S n) k.
Proof. reflexivity. Qed.

(** [k] polls that report non-terminal statuses leave the loop running,
    with one message each and the session state as it was. *)
Lemma poll_loop_waits k : forall fuel status n st log,
  terminal status = false ->
  (forall i, n <= i < n + k ->
     poll_status (get i) = Ok (sts i) /\ terminal (sts i) = false) ->
  exists status',
    terminal status' = false /\
    poll_loop get (k + fuel) status n st log
    = poll_loop get fuel status' (n + k) st (log ++ waiting sts n k).
Proof.
  induction k as [|k IH]; intros fuel status n st log Hst Hall.
  - exists status. split; [exact Hst|].
    simpl. now rewrite Nat.add_0_r, app_nil_r.
  - destruct (Hall n ltac:(lia)) as [Hn Hterm].
    destruct (terminal_false _ Hterm) as [Hc He].
    destruct (IH fuel (sts n) (S n) st (log ++ [InfoStatus (sts n)]) Hterm)
      as (status' & Hst' & Heq).
    { intros i Hi. apply Hall. lia. }
    exists status'. split; [exact Hst'|].
    cbn [Nat.add poll_loop]. rewrite Hst, Hn, Hc, He, Heq.
    rewrite waiting_S, <- app_assoc. simpl.
    now replace (n + S k) with (S (n + k)) by lia.
Qed.

(** The loop changes the session state only when it ends without any
    failure. *)
Lemma poll_loop_failed_state fuel : forall status n st log,
  existsb is_error log = false ->
  failed (poll_loop get fuel status n st log) = true ->
  state_of (poll_loop get fuel status n st log) = st.
Proof.
  induction fuel as [|fuel IH]; intros status n st log Hlog; simpl.
  - destruct (terminal status); reflexivity.
  - destruct (terminal status); [reflexivity|].
    destruct (poll_status (get n)) as [s|e]; [|reflexivity].
    destruct (equals s "completed") eqn:Hc.
    + destruct (poll_text (get n)) as [t|e]; [|reflexivity].
      rewrite poll_loop_terminal by (unfold terminal; now rewrite Hc).
      simpl. rewrite existsb_app, Hlog. discriminate.
    + destruct (equals s "error") eqn:He.
      * rewrite poll_loop_terminal by (unfold terminal; now rewrite He, orb_true_r).
        reflexivity.
      * apply IH. rewrite existsb_app, Hlog. reflexivity.
Qed.

(** When the loop ends, a poll reported a terminal status and every poll
    before it reported another status. *)
Lemma poll_loop_finished fuel : forall status n st log st' log',
  terminal status = false ->
  poll_loop get fuel status n st log = Finished st' log' ->
  exists m s,
    n <= m < n + fuel /\
    poll_status (get m) = Ok s /\ terminal s = true /\
    (forall i, n <= i < m ->
       exists si, poll_status (get i) = Ok si /\ terminal si = false).
Proof.
  induction fuel as [|fuel IH]; intros status n st log st' log' Hst; simpl;
    rewrite Hst; [discriminate|].
  destruct (poll_status (get n)) as [s|e] eqn:Hs; [|discriminate].
  destruct (terminal s) eqn:Ht.
  - intros _. exists n, s. repeat split; try lia; try assumption.
  - destruct (terminal_false _ Ht) as [Hc He]. rewrite Hc, He. intros H.
    destruct (IH _ _ _ _ _ _ Ht H) as (m & s' & Hm & Hs' & Ht' & Hbefore).
    exists m, s'. repeat split; try lia; try assumption.
    intros i Hi. destruct (Nat.eq_dec i n) as [->|Hne]; [eauto|].
    apply Hbefore. lia.
Qed.

Lemma queued_not_terminal : terminal (JStr (lit "queued")) = false.
Proof. reflexivity. Qed.

(** After [n] polls with other statuses, a poll that reports "completed"
    ends the loop with the text stored. *)
Lemma poll_loop_completed n t fuel st :
  (forall i, i < n ->
     poll_status (get i) = Ok (sts i) /\ terminal (sts i) = false) ->
  poll_status (get n) = Ok (JStr (lit "completed")) ->
  poll_text (get n) = Ok t ->
  n < fuel ->
  poll_loop get fuel (JStr (lit "queued")) 0 st []
  = Finished (set_transcript t st)
      (waiting sts 0 n ++ [Success "✅ Transcription completed!"]).
Proof.
  intros Hbefore Hn Ht Hfuel.
  destruct (poll_loop_waits n (fuel - n) _ 0 st [] queued_not_terminal)
    as (status' & Hst' & Heq).
  { intros i Hi. apply Hbefore. lia. }
  replace (n + (fuel - n)) with fuel in Heq by lia. rewrite Heq.
  destruct (fuel - n) as [|f] eqn:Ef; [lia|].
  cbn [poll_loop Nat.add app]. rewrite Hst', Hn, Ht.
  replace (equals (JStr (lit "completed")) "completed") with true
    by reflexivity.
  now rewrite poll_loop_terminal by reflexivity.
Qed.

(** After [n] polls with other statuses, a poll that reports "error" ends
    the loop with the session state untouched. *)
Lemma poll_loop_error n fuel st :
  (forall i, i < n ->
     poll_status (get i) = Ok (sts i) /\ terminal (sts i) = false) ->
  poll_status (get n) = Ok (JStr (lit "error")) ->
  n < fuel ->
  poll_loop get fuel (JStr (lit "queued")) 0 st []
  = Finished st (waiting sts 0 n ++ [Error "Transcription failed."]).
Proof.
  intros Hbefore Hn Hfuel.
  destruct (poll_loop_waits n (fuel - n) _ 0 st [] queued_not_terminal)
    as (status' & Hst' & Heq).
  { intros i Hi. apply Hbefore. lia. }
  replace (n + (fuel - n)) with fuel in Heq by lia. rewrite Heq.
  destruct (fuel - n) as [|f] eqn:Ef; [lia|].
  cbn [poll_loop Nat.add app]. rewrite Hst', Hn.
  replace (equals (JStr (lit "error")) "completed") with false
    by reflexivity.
  replace (equals (JStr (lit "error")) "error") with true by reflexivity.
  now rewrite poll_loop_terminal by reflexivity.
Qed.

End Polling.

(** ** Every way out of the loop *)

Section PollingOutcome.

Variable get : nat -> response.

(** The polls from [a] up to [b] each report a status, and none of them a
    terminal one. *)
Let waited (a b : nat) : Prop :=
  forall i, a <= i < b ->
    exists si, poll_status (get i) = Ok si /\ terminal si = false.

Lemma waited_step (s : value) (n m : nat) :
  poll_status (get n) = Ok s -> terminal s = false ->
  waited (S n) m -> waited n m.
Proof.
  intros Hs Ht Hw i Hi. destruct (Nat.eq_dec i n) as [->|Hne]; [eauto|].
  apply Hw. lia.
Qed.

Lemma terminal_true (s : value) :
  terminal s = true -> s = JStr (lit "completed") \/ s = JStr (lit "error").
Proof.
  unfold terminal. intros H. apply orb_true_iff in H as [H|H];
    apply equals_true in H; auto.
Qed.

(** What each outcome of the loop says about the polls it made. *)
Lemma poll_loop_outcome fuel : forall status n st log,
  terminal status = false ->
  match poll_loop get fuel status n st log with
  | Finished st' _ =>
      exists m, n <= m < n + fuel /\ waited n m /\
        ((poll_status (get m) = Ok (JStr (lit "completed")) /\
          exists t, poll_text (get m) = Ok t /\ st' = set_transcript t st) \/
         (poll_status (get m) = Ok (JStr (lit "error")) /\ st' = st))
  | Raised e st' _ =>
      exists m, n <= m < n + fuel /\ waited n m /\ st' = st /\
        (poll_status (get m) = Raise e \/
         (poll_status (get m) = Ok (JStr (lit "completed")) /\
          poll_text (get m) = Raise e))
  | Polling st' _ polls =>
      st' = st /\ polls = n + fuel /\ waited n (n + fuel)
  end.
Proof.
  induction fuel as [|fuel IH]; intros status n st log Hst; simpl;
    rewrite Hst.
  - repeat split; [lia | intros i Hi; lia].
  - destruct (poll_status (get n)) as [s|e] eqn:Hs.
    + destruct (equals s "completed") eqn:Hc.
      * apply equals_true in Hc. subst s.
        destruct (poll_text (get n)) as [t|e] eqn:Ht.
        -- rewrite poll_loop_terminal by reflexivity.
           exists n. repeat split; [lia | lia | intros i Hi; lia |].
           left. eauto.
        -- exists n. repeat split; [lia | lia | intros i Hi; lia |].
           right. auto.
      * destruct (equals s "error") eqn:He.
        -- apply equals_true in He. subst s.
           rewrite poll_loop_terminal by reflexivity.
           exists n. repeat split; [lia | lia | intros i Hi; lia |].
           right. auto.
        -- assert (Hts : terminal s = false)
             by (unfold terminal; now rewrite Hc, He).
           pose proof (IH s (S n) st (log ++ [InfoStatus s]) Hts) as H.
           destruct (poll_loop get fuel s (S n) st (log ++ [InfoStatus s]))
             as [st' l|e st' l|st' l k].
           ++ destruct H as (m & Hm & Hw & H). exists m.
              repeat split; [lia | lia | |exact H].
              exact (waited_step s n m Hs Hts Hw).
           ++ destruct H as (m & Hm & Hw & H). exists m.
              repeat split; [lia | lia | | apply H | apply H].
              exact (waited_step s n m Hs Hts Hw).
           ++ destruct H as (Hst' & Hk & Hw).
              repeat split; [exact Hst' | lia |].
              replace (n + S fuel) with (S n + fuel) by lia.
              exact (waited_step s n _ Hs Hts Hw).
    + exists n. repeat split; [lia | lia | intros i Hi; lia |].
      left. exact Hs.
Qed.

(** After [n] polls with other statuses, a response from which the status
    cannot be read, or a completed one from which the text cannot be read,
    ends the loop with the exception of the lookup. *)
Lemma poll_loop_unreadable (sts : nat -> value) n fuel e st :
  (forall i, i < n ->
     poll_status (get i) = Ok (sts i) /\ terminal (sts i) = false) ->
  poll_status (get n) = Raise e \/
  (poll_status (get n) = Ok (JStr (lit "completed")) /\
   poll_text (get n) = Raise e) ->
  n < fuel ->
  poll_loop get fuel (JStr (lit "queued")) 0 st []
  = Raised e st (waiting sts 0 n).
Proof.
  intros Hbefore Hn Hfuel.
  destruct (poll_loop_waits get sts n (fuel - n) _ 0 st []
              queued_not_terminal) as (status' & Hst' & Heq).
  { intros i Hi. apply Hbefore. lia. }
  replace (n + (fuel - n)) with fuel in Heq by lia. rewrite Heq.
  destruct (fuel - n) as [|f] eqn:Ef; [lia|].
  cbn [poll_loop Nat.add app]. rewrite Hst'.
  destruct Hn as [->|[-> ->]]; reflexivity.
Qed.

End PollingOutcome.

(** C6, as the code has it.  For poll responses from which the status can
    be read, and the text when the status is "completed", the polling loop
    ends exactly when a poll reports "completed", and the [text] of that
    response is then the session transcript, or "error", and a failure
    message is then shown.  Every poll that reports another status shows a
    status message and the loop goes on: there is no bound on the polls, and
    when no poll ever reports a terminal status the loop is still polling
    after any number of polls.  A response from which the status cannot be
    read, or a completed one from which the text cannot be read, is the one
    other way out: the exception of the lookup leaves the loop, with the
    transcript as it was and no message for that poll.  Every run of the
    loop is one of these. *)
Theorem polling_ends_on_terminal_status
    (get : nat -> response) (sts : nat -> value) (st : session_state) :
  (forall n t fuel,
     (forall i, i < n ->
        poll_status (get i) = Ok (sts i) /\ terminal (sts i) = false) ->
     poll_status (get n) = Ok (JStr (lit "completed")) ->
     poll_text (get n) = Ok t ->
     n < fuel ->
     poll_loop get fuel (JStr (lit "queued")) 0 st []
     = Finished (set_transcript t st)
         (waiting sts 0 n ++ [Success "✅ Transcription completed!"]) /\
     transcript (state_of (poll_loop get fuel (JStr (lit "queued")) 0 st []))
     = t /\
     summary (state_of (poll_loop get fuel (JStr (lit "queued")) 0 st []))
     = summary st) /\
  (forall n fuel,
     (forall i, i < n ->
        poll_status (get i) = Ok (sts i) /\ terminal (sts i) = false) ->
     poll_status (get n) = Ok (JStr (lit "error")) ->
     n < fuel ->
     poll_loop get fuel (JStr (lit "queued")) 0 st []
     = Finished st (waiting sts 0 n ++ [Error "Transcription failed."])) /\
  ((forall i, poll_status (get i) = Ok (sts i) /\ terminal (sts i) = false) ->
   forall fuel,
     poll_loop get fuel (JStr (lit "queued")) 0 st []
     = Polling st (waiting sts 0 fuel) fuel) /\
  (forall n fuel e,
     (forall i, i < n ->
        poll_status (get i) = Ok (sts i) /\ terminal (sts i) = false) ->
     poll_status (get n) = Raise e \/
     (poll_status (get n) = Ok (JStr (lit "completed")) /\
      poll_text (get n) = Raise e) ->
     n < fuel ->
     poll_loop get fuel (JStr (lit "queued")) 0 st []
     = Raised e st (waiting sts 0 n)) /\
  (forall fuel st' log',
     poll_loop get fuel (JStr (lit "queued")) 0 st [] = Finished st' log' ->
     exists n,
       n < fuel /\
       (forall i, i < n ->
          exists si, poll_status (get i) = Ok si /\ terminal si = false) /\
       ((poll_status (get n) = Ok (JStr (lit "completed")) /\
         exists t, poll_text (get n) = Ok t /\
                   st' = set_transcript t st /\ transcript st' = t) \/
        (poll_status (get n) = Ok (JStr (lit "error")) /\ st' = st))) /\
  (forall fuel e st' log',
     poll_loop get fuel (JStr (lit "queued")) 0 st [] = Raised e st' log' ->
     exists n,
       n < fuel /\
       (forall i, i < n ->
          exists si, poll_status (get i) = Ok si /\ terminal si = false) /\
       st' = st /\
       (poll_status (get n) = Raise e \/
        (poll_status (get n) = Ok (JStr (lit "completed")) /\
         poll_text (get n) = Raise e))) /\
  (forall fuel st' log' polls,
     poll_loop get fuel (JStr (lit "queued")) 0 st []
     = Polling st' log' polls ->
     st' = st /\ polls = fuel /\
     forall i, i < fuel ->
       exists si, poll_status (get i) = Ok si /\ terminal si = false).
Proof.
  assert (Hq : terminal (JStr (lit "queued")) = false) by reflexivity.
  split; [|split; [|split; [|split; [|split; [|split]]]]].
  - intros n t fuel Hbefore Hn Ht Hfuel.
    rewrite (poll_loop_completed get sts n t fuel st Hbefore Hn Ht Hfuel).
    repeat split.
  - intros n fuel. apply poll_loop_error.
  - intros Hall fuel.
    destruct (poll_loop_waits get sts fuel 0 _ 0 st [] Hq)
      as (status' & Hst' & Heq).
    { intros i _. apply Hall. }
    rewrite Nat.add_0_r in Heq. rewrite Heq. simpl. now rewrite Hst'.
  - intros n fuel e. apply poll_loop_unreadable.
  - intros fuel st' log' H.
    pose proof (poll_loop_outcome get fuel _ 0 st [] Hq) as Hout.
    rewrite H in Hout. destruct Hout as (m & Hm & Hw & Hcase).
    exists m. split; [lia|]. split; [intros i Hi; apply Hw; lia|].
    destruct Hcase as [(Hs & t & Ht & ->)|Hcase]; [left | right; exact Hcase].
    split; [exact Hs|]. exists t. repeat split. exact Ht.
  - intros fuel e st' log' H.
    pose proof (poll_loop_outcome get fuel _ 0 st [] Hq) as Hout.
    rewrite H in Hout. destruct Hout as (m & Hm & Hw & Hst' & Hcase).
    exists m. split; [lia|]. split; [intros i Hi; apply Hw; lia|].
    split; assumption.
  - intros fuel st' log' polls H.
    pose proof (poll_loop_outcome get fuel _ 0 st [] Hq) as Hout.
    rewrite H in Hout. destruct Hout as (Hst' & Hk & Hw).
    repeat split; [exact Hst' | lia |]. intros i Hi. apply Hw. lia.
Qed.

Lemma polling_ends_on_terminal_status_witness :
  poll_loop sample_polls 3 (JStr (lit "queued")) 0 sample_state []
  = Finished
      (set_transcript (JStr (lit "Patient reports a cough.")) sample_state)
      [InfoStatus (JStr (lit "processing"));
       InfoStatus (JStr (lit "processing"));
       Success "✅ Transcription completed!"] /\
  transcript
    (state_of (poll_loop sample_polls 3 (JStr (lit "queued")) 0
                 sample_state []))
  = JStr (lit "Patient reports a cough.") /\
  summary
    (state_of (poll_loop sample_polls 3 (JStr (lit "queued")) 0
                 sample_state []))
  = JStr (lit "Summary: earlier visit.").
Proof.
  apply (proj1 (polling_ends_on_terminal_status
                  sample_polls sample_statuses sample_state)
           2 (JStr (lit "Patient reports a cough.")) 3).
  - intros [|[|i]] Hi; [split; reflexivity | split; reflexivity | lia].
  - reflexivity.
  - reflexivity.
  - lia.
Defined.

(** C6 as first stated, for every sequence of poll responses, fails: polls
    answered with an error body that holds no status leave the loop at the
    first poll, with [KeyError], although no response reports "completed" or
    "error". *)
Lemma polling_left_without_terminal_status :
  poll_loop statusless_polls 1 (JStr (lit "queued")) 0 sample_state []
  = Raised KeyError sample_state [] /\
  ~ (exists n s, poll_status (statusless_polls n) = Ok s /\
                 terminal s = true).
Proof.
  split; [reflexivity|].
  intros (n & s & Hs & _). discriminate Hs.
Qed.

(** C7.  A stage that fails leaves the session state as it was.  The
    failures are: the upload or the job request answered with a status other
    than 200, a transcription that the provider reports as "error", and a
    summarisation answered with a status other than 200 or with a body from
    which the nested text cannot be read.  Each of them ends the action with
    an error message and the unchanged state; more generally the state is
    unchanged whenever an action shows an error message or is left by an
    exception. *)
Theorem failed_stage_keeps_session_state (st : session_state) :
  (forall p fuel,
     status_code (upload p) <> 200%Z ->
     transcribe p fuel st
     = Finished st
         [Error "Audio upload failed. Please check your API key or network."]) /\
  (forall p fuel upload_url,
     status_code (upload p) = 200%Z ->
     (body <- json_of (upload p) ;; item "upload_url" body) = Ok upload_url ->
     status_code (request_transcript p upload_url) <> 200%Z ->
     transcribe p fuel st
     = Finished st [Error "Failed to request transcription."]) /\
  (forall p fuel upload_url transcript_id sts n,
     status_code (upload p) = 200%Z ->
     (body <- json_of (upload p) ;; item "upload_url" body) = Ok upload_url ->
     status_code (request_transcript p upload_url) = 200%Z ->
     (body <- json_of (request_transcript p upload_url) ;; item "id" body)
     = Ok transcript_id ->
     (forall i, i < n ->
        poll_status (poll p transcript_id i) = Ok (sts i) /\
        terminal (sts i) = false) ->
     poll_status (poll p transcript_id n) = Ok (JStr (lit "error")) ->
     n < fuel ->
     transcribe p fuel st
     = Finished st (waiting sts 0 n ++ [Error "Transcription failed."])) /\
  (forall res,
     status_code res <> 200%Z ->
     generate_summary res st = Finished st [ErrorGemini (text res)]) /\
  (forall res e,
     status_code res = 200%Z -> gemini_text res = Raise e ->
     generate_summary res st = Finished st [ErrorParsing e]) /\
  (forall p fuel,
     failed (transcribe p fuel st) = true ->
     state_of (transcribe p fuel st) = st) /\
  (forall res,
     failed (generate_summary res st) = true ->
     state_of (generate_summary res st) = st).
Proof.
  repeat split.
  - intros p fuel H. unfold transcribe.
    apply Z.eqb_neq in H. now rewrite H.
  - intros p fuel url Hup Hurl Hreq. unfold transcribe.
    apply Z.eqb_neq in Hreq. rewrite Hup, Hurl. simpl. now rewrite Hreq.
  - intros p fuel url tid sts n Hup Hurl Hreq Hid Hbefore Herr Hfuel.
    unfold transcribe. rewrite Hup, Hurl, Hreq, Hid. simpl.
    now apply poll_loop_error.
  - intros res H. unfold generate_summary.
    apply Z.eqb_neq in H. now rewrite H.
  - intros res e H He. unfold generate_summary. now rewrite H, He.
  - intros p fuel. unfold transcribe.
    destruct (negb (status_code (upload p) =? 200)%Z); [reflexivity|].
    destruct (body <- json_of (upload p);; item "upload_url" body)
      as [url|e]; [|reflexivity].
    destruct (negb (status_code (request_transcript p url) =? 200)%Z);
      [reflexivity|].
    destruct (body <- json_of (request_transcript p url);; item "id" body)
      as [tid|e]; [|reflexivity].
    now apply poll_loop_failed_state.
  - intros res. unfold generate_summary.
    destruct (status_code res =? 200)%Z; [|reflexivity].
    destruct (gemini_text res); [discriminate | reflexivity].
Qed.

Lemma failed_stage_keeps_session_state_witness :
  transcribe rejecting_provider 3 sample_state
  = Finished sample_state
      [Error "Audio upload failed. Please check your API key or network."] /\
  state_of (generate_summary (upload rejecting_provider) sample_state)
  = sample_state.
Proof.
  split.
  - apply (proj1 (failed_stage_keeps_session_state sample_state)).
    simpl. lia.
  - apply (failed_stage_keeps_session_state sample_state). reflexivity.
Defined.

(** * Further properties of the script *)

(** ** The two sections of a summary *)

Section TwoSections.

Lemma app_eq_length (a b x y : str) :
  length a = length b -> a ++ x = b ++ y -> a = b /\ x = y.
Proof.
  revert b; induction a as [|c a IH]; intros [|d b]; simpl;
    try discriminate; [auto|].
  intros [= Hlen] [= -> Heq]. destruct (IH b Hlen Heq) as [-> ->]. auto.
Qed.

(** An occurrence with none starting before it is the one [find_first]
    returns. *)
Lemma find_first_leftmost (sep pre post : str) :
  (forall a b, pre ++ sep ++ post = a ++ sep ++ b -> length pre <= length a) ->
  find_first sep (pre ++ sep ++ post) = Some (pre, post).
Proof.
  intros Hmin. destruct (find_first sep (pre ++ sep ++ post))
    as [[pre' post']|] eqn:E.
  - destruct (find_first_Some _ _ _ _ E) as [Hs Hmin'].
    pose proof (Hmin _ _ Hs). pose proof (Hmin' _ _ eq_refl).
    destruct (app_eq_length pre pre' _ _ ltac:(lia) Hs) as [-> Hrest].
    apply app_inv_head in Hrest. now subst.
  - apply find_first_None in E.
    assert (H : contains sep (pre ++ sep ++ post) = true)
      by (apply contains_true; eauto).
    congruence.
Qed.

Lemma lstrip_all_space (s : str) : forallb is_space s = true -> lstrip s = [].
Proof.
  induction s as [|c s IH]; [reflexivity|]. simpl.
  intros H. apply andb_true_iff in H as [-> H]. auto.
Qed.

Lemma strip_empty_iff (s : str) : strip s = [] <-> forallb is_space s = true.
Proof.
  split.
  - intros H. destruct (strip_split s) as (a & b & Hs & Ha & Hb).
    rewrite Hs, H, !forallb_app, Ha, Hb. reflexivity.
  - intros H. unfold strip. now rewrite lstrip_all_space.
Qed.

(** [rstrip] leaves alone a prefix that ends with a character other than
    whitespace. *)
Lemma rstrip_app_nonspace (p x : str) (d : ascii) :
  p <> [] -> is_space (last p d) = false -> rstrip (p ++ x) = p ++ rstrip x.
Proof.
  induction p as [|c p IH]; [congruence|]. intros _ Hlast.
  destruct p as [|c' p].
  - simpl in *. rewrite Hlast. now destruct (rstrip x).
  - change (rstrip ((c :: c' :: p) ++ x))
      with (match rstrip ((c' :: p) ++ x) with
            | [] => if is_space c then [] else [c]
            | r => c :: r
            end).
    rewrite IH by (discriminate || exact Hlast). reflexivity.
Qed.

Lemma contains_inside (m a x b : str) :
  contains m x = true -> contains m (a ++ x ++ b) = true.
Proof.
  rewrite !contains_true. intros (u & v & ->).
  exists (a ++ u), (v ++ b). now rewrite <- !app_assoc.
Qed.

Lemma contains_strip (m s : str) :
  contains m (strip s) = true -> contains m s = true.
Proof.
  intros H. destruct (strip_split s) as (a & b & Hs & _).
  rewrite Hs. now apply contains_inside.
Qed.

Lemma contains_skipn (m s : str) (n : nat) :
  contains m (skipn n s) = true -> contains m s = true.
Proof.
  intros H. rewrite <- (firstn_skipn n s).
  rewrite <- (app_nil_r (skipn n s)). now apply contains_inside.
Qed.

(** The text before the leftmost marker holds no marker. *)
Lemma before_marker_free (sep s pre post : str) :
  sep <> [] -> find_first sep s = Some (pre, post) -> contains sep pre = false.
Proof.
  intros Hsep E. destruct (find_first_Some _ _ _ _ E) as [Hs Hmin].
  destruct (contains sep pre) eqn:C; [|reflexivity].
  apply contains_true in C as (a & b & ->).
  assert (H : s = a ++ sep ++ (b ++ sep ++ post))
    by (rewrite Hs; now rewrite <- !app_assoc).
  apply Hmin in H. rewrite !length_app in H.
  destruct sep; [congruence | simpl in H; lia].
Qed.

End TwoSections.

(** X1.  A summary in the requested format, a "Summary:" label in any
    letter case followed by a body, the marker and the actions, is read back
    in its two parts: the Summary page shows the stripped body and the
    extracted key actions are the stripped text after the marker.  The
    marker is the leftmost one of the summary. *)
Theorem two_section_summary_read_back (L body post : str) :
  lower L = label ->
  (forall a b, (L ++ body) ++ marker ++ post = a ++ marker ++ b ->
               length (L ++ body) <= length a) ->
  summary_text ((L ++ body) ++ marker ++ post) = strip body /\
  key_actions ((L ++ body) ++ marker ++ post) = strip post.
Proof.
  intros HL Hmin. pose proof (find_first_leftmost _ _ _ Hmin) as Hfind.
  assert (Hc : contains marker ((L ++ body) ++ marker ++ post) = true)
    by (apply contains_true; eauto).
  split.
  - unfold summary_text. rewrite before_marker, Hfind.
    unfold lower. rewrite map_app. fold (lower L) (lower body). rewrite HL.
    assert (Hs : strip (label ++ lower body) = label ++ rstrip (lower body)).
    { unfold strip.
      replace (lstrip (label ++ lower body)) with (label ++ lower body)
        by reflexivity.
      apply (rstrip_app_nonspace label _ " "%char); [discriminate | reflexivity]. }
    rewrite Hs, startswith_app. unfold slice_from.
    replace (length label) with (length L)
      by (rewrite <- HL; unfold lower; now rewrite length_map).
    rewrite skipn_app, skipn_all, Nat.sub_diag. reflexivity.
  - unfold key_actions, split_once. now rewrite Hc, Hfind.
Qed.

Lemma two_section_summary_read_back_witness :
  summary_text ((lit "SUMMARY:" ++ lit " Mild cold. ")
                  ++ marker ++ lit " Rest; fluids. ")
  = lit "Mild cold." /\
  key_actions ((lit "SUMMARY:" ++ lit " Mild cold. ")
                 ++ marker ++ lit " Rest; fluids. ")
  = lit "Rest; fluids.".
Proof.
  apply (two_section_summary_read_back
           (lit "SUMMARY:") (lit " Mild cold. ") (lit " Rest; fluids. ")).
  - reflexivity.
  - apply (find_first_Some marker
             ((lit "SUMMARY:" ++ lit " Mild cold. ")
                ++ marker ++ lit " Rest; fluids. ")
             (lit "SUMMARY:" ++ lit " Mild cold. ") (lit " Rest; fluids. ")
             eq_refl).
Defined.

(** X2.  When the marker is followed by whitespace only, or by nothing, the
    extracted key actions are empty and the Key Insights page shows "No key
    actions found."; the extracted text is empty in no other case.  The
    marker is the leftmost one of the summary. *)
Theorem key_actions_empty_after_marker (pre post : str) :
  (forall a b, pre ++ marker ++ post = a ++ marker ++ b ->
               length pre <= length a) ->
  (key_actions (pre ++ marker ++ post) = [] <-> forallb is_space post = true) /\
  (forallb is_space post = true ->
   shown_key_actions (key_actions (pre ++ marker ++ post)) = placeholder).
Proof.
  intros Hmin. pose proof (find_first_leftmost _ _ _ Hmin) as Hfind.
  assert (Hk : key_actions (pre ++ marker ++ post) = strip post).
  { unfold key_actions, split_once. rewrite Hfind.
    replace (contains marker (pre ++ marker ++ post)) with true; [reflexivity|].
    symmetry. apply contains_true. eauto. }
  rewrite Hk. split; [apply strip_empty_iff|].
  intros H. apply strip_empty_iff in H. now rewrite H.
Qed.

Lemma key_actions_empty_after_marker_witness :
  shown_key_actions (key_actions (lit "Summary: ok. " ++ marker ++ lit "  "))
  = placeholder.
Proof.
  apply (key_actions_empty_after_marker (lit "Summary: ok. ") (lit "  ")).
  - apply (find_first_Some marker
             (lit "Summary: ok. " ++ marker ++ lit "  ")
             (lit "Summary: ok. ") (lit "  ") eq_refl).
  - reflexivity.
Defined.

(** X3.  The text of the Summary page never holds the marker "Key
    Actions:", whatever the stored summary. *)
Theorem summary_text_has_no_marker (summary : str) :
  contains marker (summary_text summary) = false.
Proof.
  unfold summary_text. rewrite before_marker.
  set (body := match find_first marker summary with
               | Some (pre, _) => pre
               | None => summary
               end).
  assert (Hbody : contains marker body = false).
  { subst body. destruct (find_first marker summary) as [[pre post]|] eqn:E.
    - apply (before_marker_free marker summary pre post); [discriminate | exact E].
    - now apply find_first_None. }
  destruct (startswith label (strip (lower body))); [|exact Hbody].
  destruct (contains marker (strip (slice_from (length label) body))) eqn:C;
    [|reflexivity].
  apply contains_strip, contains_skipn in C. congruence.
Qed.

(** X4.  The text of the Key Insights page is never empty, and formatting
    it again changes nothing: what the page shows is a fixed point of the
    formatting, for every key-actions text. *)
Theorem shown_key_actions_fixed_point (ka : str) :
  truthy (shown_key_actions ka) = true /\
  shown_key_actions (shown_key_actions ka) = shown_key_actions ka.
Proof.
  destruct ka as [|c ka]; [split; reflexivity|].
  assert (Hne : truthy (c :: ka) = true) by reflexivity.
  rewrite (shown_nonempty _ Hne).
  pose proof (display_truthy _ Hne) as Hd.
  split; [exact Hd|].
  rewrite (shown_nonempty _ Hd). apply display_key_actions_idempotent.
Qed.

(** ** What the fragments keep *)

Section Kept.

Lemma filter_kept_spaces (s : str) :
  forallb is_space s = true -> filter kept s = [].
Proof.
  induction s as [|c s IH]; [reflexivity|]. simpl. intros H.
  apply andb_true_iff in H as [Hc H]. unfold kept at 1. rewrite Hc. auto.
Qed.

Lemma filter_kept_strip (s : str) : filter kept (strip s) = filter kept s.
Proof.
  destruct (strip_split s) as (a & b & Hs & Ha & Hb).
  rewrite Hs at 2. rewrite !filter_app.
  now rewrite (filter_kept_spaces a Ha), (filter_kept_spaces b Hb), app_nil_r.
Qed.

Lemma filter_kept_replace (s : str) :
  filter kept (replace_char ";" "." s) = filter kept s.
Proof.
  induction s as [|c s IH]; [reflexivity|]. simpl.
  destruct (Ascii.eqb_spec c ";") as [->|Hne]; simpl; now rewrite IH.
Qed.

Lemma filter_kept_split (s : str) :
  filter kept (concat (split_char "." s)) = filter kept s.
Proof.
  induction s as [|c s IH]; [reflexivity|]. cbn [split_char].
  destruct (Ascii.eqb_spec c ".") as [->|Hne].
  - simpl. exact IH.
  - pose proof (split_char_nonempty "." s) as Hs.
    destruct (split_char "." s) as [|f fs]; [congruence|].
    simpl in *. now rewrite IH.
Qed.

Lemma filter_kept_points (l : list str) :
  filter kept
    (concat (map strip (filter (fun pt => truthy (strip pt)) l)))
  = filter kept (concat l).
Proof.
  induction l as [|f l IH]; [reflexivity|]. simpl.
  rewrite filter_app, <- (filter_kept_strip f).
  destruct (strip f) as [|c r] eqn:E; simpl truthy; cbv iota.
  - exact IH.
  - cbn [map concat]. now rewrite filter_app, IH, E.
Qed.

End Kept.

(** X5.  The fragments of line 157 lose nothing but whitespace and the two
    separators: read in order, the characters of the fragments that are
    neither whitespace, a period nor a semicolon are those of the
    key-actions text. *)
Theorem points_keep_content (ka : str) :
  filter kept (concat (points ka)) = filter kept ka.
Proof.
  unfold points.
  now rewrite filter_kept_points, filter_kept_split, filter_kept_replace.
Qed.

(** ** The transcription action as a whole *)

Section Transcription.

Variable get : nat -> response.

(** The loop either leaves the session state alone or ends with the success
    message, after status messages only, with the transcript replaced. *)
Lemma poll_loop_effect fuel : forall status n st log,
  state_of (poll_loop get fuel status n st log) = st \/
  exists t infos,
    poll_loop get fuel status n st log
    = Finished (set_transcript t st)
        (log ++ infos ++ [Success "✅ Transcription completed!"]) /\
    Forall (fun m => exists s, m = InfoStatus s) infos.
Proof.
  induction fuel as [|fuel IH]; intros status n st log; simpl.
  - left. destruct (terminal status); reflexivity.
  - destruct (terminal status); [now left|].
    destruct (poll_status (get n)) as [s|e]; [|now left].
    destruct (equals s "completed") eqn:Hc.
    + destruct (poll_text (get n)) as [t|e]; [|now left].
      right. exists t, [].
      rewrite poll_loop_terminal by (unfold terminal; now rewrite Hc).
      split; [reflexivity | constructor].
    + destruct (equals s "error") eqn:He.
      * left.
        now rewrite poll_loop_terminal
          by (unfold terminal; now rewrite He, orb_true_r).
      * destruct (IH s (S n) st (log ++ [InfoStatus s]))
          as [H|(t & infos & H & Hinfos)]; [now left|].
        right. exists t, (InfoStatus s :: infos).
        rewrite H, <- app_assoc. split; [reflexivity|].
        constructor; eauto.
Qed.

(** A loop that is still polling has made every poll it was given, shown
    one message for each, and left the session state alone. *)
Lemma poll_loop_polling fuel : forall status n st log st' log' k,
  poll_loop get fuel status n st log = Polling st' log' k ->
  st' = st /\ k = n + fuel /\ length log' = length log + fuel.
Proof.
  induction fuel as [|fuel IH]; intros status n st log st' log' k; simpl.
  - destruct (terminal status); [discriminate|].
    intros [= <- <- <-]. repeat split; lia.
  - destruct (terminal status); [discriminate|].
    destruct (poll_status (get n)) as [s|e]; [|discriminate].
    destruct (equals s "completed") eqn:Hc.
    + destruct (poll_text (get n)) as [t|e]; [|discriminate].
      rewrite poll_loop_terminal by (unfold terminal; now rewrite Hc).
      discriminate.
    + destruct (equals s "error") eqn:He.
      * rewrite poll_loop_terminal
          by (unfold terminal; now rewrite He, orb_true_r).
        discriminate.
      * intros H. apply IH in H as (-> & -> & ->).
        rewrite length_app. simpl. repeat split; lia.
Qed.

(** Once the loop has ended, polls it was not given change nothing. *)
Lemma poll_loop_more_fuel fuel : forall fuel' status n st log,
  ended (poll_loop get fuel status n st log) = true ->
  fuel <= fuel' ->
  poll_loop get fuel' status n st log = poll_loop get fuel status n st log.
Proof.
  induction fuel as [|fuel IH]; intros fuel' status n st log; simpl.
  - destruct (terminal status) eqn:Ht; [|discriminate].
    intros _ _. now apply poll_loop_terminal.
  - destruct (terminal status) eqn:Ht.
    + intros _ _. now apply poll_loop_terminal.
    + intros Hend Hle. destruct fuel' as [|fuel']; [lia|].
      simpl. rewrite Ht.
      destruct (poll_status (get n)) as [s|e]; [|reflexivity].
      destruct (equals s "completed").
      * destruct (poll_text (get n)); [|reflexivity].
        apply IH; [exact Hend | lia].
      * destruct (equals s "error"); (apply IH; [exact Hend | lia]).
Qed.

End Transcription.

(** The path of [transcribe] to the loop: the job is requested for the URL
    of the upload and polled under the identifier of the request. *)
Lemma transcribe_polls (p : provider) (fuel : nat) (st : session_state)
    (upload_url transcript_id : value) :
  status_code (upload p) = 200%Z ->
  (body <- json_of (upload p) ;; item "upload_url" body) = Ok upload_url ->
  status_code (request_transcript p upload_url) = 200%Z ->
  (body <- json_of (request_transcript p upload_url) ;; item "id" body)
  = Ok transcript_id ->
  transcribe p fuel st
  = poll_loop (poll p transcript_id) fuel (JStr (lit "queued")) 0 st [].
Proof.
  intros Hup Hurl Hreq Hid. unfold transcribe.
  rewrite Hup, Hurl. simpl. rewrite Hreq, Hid. reflexivity.
Qed.

(** X6.  A transcription writes nothing but the transcript, and writes it
    only when it ends with the success message after status messages alone:
    otherwise the whole session state is as before.  A summarisation never
    writes the transcript. *)
Theorem actions_write_their_own_field
    (p : provider) (fuel : nat) (res : response) (st : session_state) :
  (state_of (transcribe p fuel st) = st \/
   exists t infos,
     transcribe p fuel st
     = Finished (set_transcript t st)
         (infos ++ [Success "✅ Transcription completed!"]) /\
     Forall (fun m => exists s, m = InfoStatus s) infos) /\
  summary (state_of (transcribe p fuel st)) = summary st /\
  stored_key_actions (state_of (transcribe p fuel st))
  = stored_key_actions st /\
  transcript (state_of (generate_summary res st)) = transcript st /\
  stored_key_actions (state_of (generate_summary res st))
  = stored_key_actions st.
Proof.
  assert (H : state_of (transcribe p fuel st) = st \/
              exists t infos,
                transcribe p fuel st
                = Finished (set_transcript t st)
                    (infos ++ [Success "✅ Transcription completed!"]) /\
                Forall (fun m => exists s, m = InfoStatus s) infos).
  { unfold transcribe.
    destruct (negb (status_code (upload p) =? 200)%Z); [now left|].
    destruct (body <- json_of (upload p);; item "upload_url" body)
      as [url|e]; [|now left].
    destruct (negb (status_code (request_transcript p url) =? 200)%Z);
      [now left|].
    destruct (body <- json_of (request_transcript p url);; item "id" body)
      as [tid|e]; [|now left].
    apply poll_loop_effect. }
  split; [exact H|].
  repeat split.
  - destruct H as [->|(t & infos & -> & _)]; reflexivity.
  - destruct H as [->|(t & infos & -> & _)]; reflexivity.
  - unfold generate_summary. destruct (status_code res =? 200)%Z;
      [destruct (gemini_text res)|]; reflexivity.
  - unfold generate_summary. destruct (status_code res =? 200)%Z;
      [destruct (gemini_text res)|]; reflexivity.
Qed.

(** X7.  A poll response from which the status cannot be read, or a
    completed one from which the text cannot be read, ends the action with
    the exception of the lookup: the transcript is not written and neither
    the success nor the failure message is shown, only the status messages
    of the polls before it. *)
Theorem unreadable_poll_response_raises
    (get : nat -> response) (sts : nat -> value) (st : session_state)
    (n fuel : nat) (e : exn) :
  (forall i, i < n ->
     poll_status (get i) = Ok (sts i) /\ terminal (sts i) = false) ->
  poll_status (get n) = Raise e \/
  (poll_status (get n) = Ok (JStr (lit "completed")) /\
   poll_text (get n) = Raise e) ->
  n < fuel ->
  poll_loop get fuel (JStr (lit "queued")) 0 st []
  = Raised e st (waiting sts 0 n).
Proof.
  intros Hbefore Hn Hfuel.
  destruct (poll_loop_waits get sts n (fuel - n) _ 0 st []
              queued_not_terminal) as (status' & Hst' & Heq).
  { intros i Hi. apply Hbefore. lia. }
  replace (n + (fuel - n)) with fuel in Heq by lia. rewrite Heq.
  destruct (fuel - n) as [|f] eqn:Ef; [lia|].
  cbn [poll_loop Nat.add app]. rewrite Hst'.
  destruct Hn as [->|[-> ->]]; reflexivity.
Qed.

Lemma unreadable_poll_response_raises_witness :
  poll_loop truncated_polls 5 (JStr (lit "queued")) 0 sample_state []
  = Raised KeyError sample_state [InfoStatus (JStr (lit "queued"))].
Proof.
  apply (unreadable_poll_response_raises truncated_polls
           (fun _ => JStr (lit "queued")) sample_state 1 5 KeyError).
  - intros [|i] Hi; [split; reflexivity | lia].
  - right. split; reflexivity.
  - lia.
Defined.

(** X8.  The bound on the polls is no part of the result: an action that
    has ended within some number of polls ends in the same way under every
    larger number, and an action that is still polling has made every poll
    allowed, shown one message for each, and left the session state as it
    was. *)
Theorem transcribe_poll_bound (p : provider) (fuel : nat) (st : session_state) :
  (forall fuel',
     ended (transcribe p fuel st) = true -> fuel <= fuel' ->
     transcribe p fuel' st = transcribe p fuel st) /\
  (forall st' log polls,
     transcribe p fuel st = Polling st' log polls ->
     st' = st /\ polls = fuel /\ length log = fuel).
Proof.
  split.
  - intros fuel'. unfold transcribe.
    destruct (negb (status_code (upload p) =? 200)%Z); [reflexivity|].
    destruct (body <- json_of (upload p);; item "upload_url" body)
      as [url|e]; [|reflexivity].
    destruct (negb (status_code (request_transcript p url) =? 200)%Z);
      [reflexivity|].
    destruct (body <- json_of (request_transcript p url);; item "id" body)
      as [tid|e]; [|reflexivity].
    apply poll_loop_more_fuel.
  - intros st' log polls. unfold transcribe.
    destruct (negb (status_code (upload p) =? 200)%Z); [discriminate|].
    destruct (body <- json_of (upload p);; item "upload_url" body)
      as [url|e]; [|discriminate].
    destruct (negb (status_code (request_transcript p url) =? 200)%Z);
      [discriminate|].
    destruct (body <- json_of (request_transcript p url);; item "id" body)
      as [tid|e]; [|discriminate].
    intros H. apply poll_loop_polling in H. simpl in H. exact H.
Qed.

Lemma transcribe_poll_bound_witness :
  transcribe working_provider 40 sample_state
  = Finished
      (set_transcript (JStr (lit "Patient reports a cough.")) sample_state)
      [InfoStatus (JStr (lit "processing"));
       InfoStatus (JStr (lit "processing"));
       Success "✅ Transcription completed!"].
Proof.
  rewrite (proj1 (transcribe_poll_bound working_provider 3 sample_state)
             40 eq_refl ltac:(lia)).
  reflexivity.
Defined.

(** ** The summarisation action as a whole *)

(** X9.  A summarisation stores a summary exactly when the response has
    status 200 and its body is an object whose "candidates" is a list that
    starts with an object, whose "content" is an object, whose "parts" is a
    list that starts with an object with a "text"; the value of that "text"
    is what is stored.  Further candidates, parts and fields are not
    looked at. *)
Theorem summary_stored_iff_shape
    (res : response) (st : session_state) (t : value) :
  generate_summary res st
  = Finished (set_summary t st) [Success "✅ Summary generated!"]
  <->
  status_code res = 200%Z /\
  exists body candidate candidates content part parts,
    json res = Some (JObj body) /\
    lookup (lit "candidates") body
    = Some (JArr (JObj candidate :: candidates)) /\
    lookup (lit "content") candidate = Some (JObj content) /\
    lookup (lit "parts") content = Some (JArr (JObj part :: parts)) /\
    lookup (lit "text") part = Some t.
Proof.
  unfold generate_summary, gemini_text, json_of, item, item0, bind. split.
  - destruct (Z.eqb_spec (status_code res) 200) as [Hs|Hs]; [|discriminate].
    intros H. split; [exact Hs|].
    destruct (json res) as [[| | | |?|body]|] eqn:Eb; try discriminate.
    destruct (lookup (lit "candidates") body)
      as [[| | |[|? ?]|[|[| | | |?|candidate] candidates]|?]|] eqn:Ec;
      try discriminate.
    destruct (lookup (lit "content") candidate)
      as [[| | | |?|content]|] eqn:Eo; try discriminate.
    destruct (lookup (lit "parts") content)
      as [[| | |[|? ?]|[|[| | | |?|part] parts]|?]|] eqn:Ep;
      try discriminate.
    destruct (lookup (lit "text") part) as [t'|] eqn:Et; try discriminate.
    injection H as H.
    assert (t' = t).
    { destruct st; unfold set_summary in H; simpl in H. congruence. }
    subst t'. exists body, candidate, candidates, content, part, parts.
    repeat split; reflexivity || assumption.
  - intros (Hs & body & candidate & candidates & content & part & parts
            & -> & -> & -> & -> & ->).
    now rewrite Hs.
Qed.

Lemma summary_stored_iff_shape_witness :
  generate_summary (gemini_response (JStr (lit "Summary: ok."))) sample_state
  = Finished (set_summary (JStr (lit "Summary: ok.")) sample_state)
      [Success "✅ Summary generated!"].
Proof.
  apply (proj2 (summary_stored_iff_shape
                  (gemini_response (JStr (lit "Summary: ok.")))
                  sample_state (JStr (lit "Summary: ok.")))).
  split; [reflexivity|].
  eexists _, _, _, _, _, _. repeat split; reflexivity.
Defined.

(** ** The session dictionary *)

Section SessionInit.

Lemma str_eqb_eq (a b : str) : str_eqb a b = true <-> a = b.
Proof.
  unfold str_eqb. destruct (list_eq_dec ascii_dec a b); split;
    congruence.
Qed.

Lemma lookup_app (k : str) (d d' : store) :
  lookup k (d ++ d')
  = match lookup k d with
    | Some v => Some v
    | None => lookup k d'
    end.
Proof.
  induction d as [|[k' v'] d IH]; [reflexivity|]. simpl.
  destruct (str_eqb k' k); [reflexivity | exact IH].
Qed.

Lemma setdefault_keeps (key : string) (default v : value) (k : str)
    (d : store) :
  lookup k d = Some v -> lookup k (setdefault key default d) = Some v.
Proof.
  intros H. unfold setdefault. destruct (lookup (lit key) d); [exact H|].
  now rewrite lookup_app, H.
Qed.

Lemma setdefault_binds (key : string) (default : value) (d : store) :
  lookup (lit key) (setdefault key default d)
  = match lookup (lit key) d with
    | Some v => Some v
    | None => Some default
    end.
Proof.
  unfold setdefault. destruct (lookup (lit key) d) eqn:E; [exact E|].
  rewrite lookup_app, E. simpl.
  now rewrite (proj2 (str_eqb_eq _ _) eq_refl).
Qed.

Lemma setdefault_other (key : string) (default : value) (k : str)
    (d : store) :
  k <> lit key -> lookup k (setdefault key default d) = lookup k d.
Proof.
  intros Hne. unfold setdefault. destruct (lookup (lit key) d); [reflexivity|].
  rewrite lookup_app. destruct (lookup k d); [reflexivity|]. simpl.
  destruct (str_eqb (lit key) k) eqn:E; [|reflexivity].
  apply str_eqb_eq in E. congruence.
Qed.

Lemma setdefault_bound (key : string) (default v : value) (d : store) :
  lookup (lit key) d = Some v -> setdefault key default d = d.
Proof. intros H. unfold setdefault. now rewrite H. Qed.

End SessionInit.

Ltac distinct_keys :=
  let H := fresh in intros H; vm_compute in H; discriminate H.

(** X10.  The initialisation that every rerun starts with binds the three
    session keys, to the empty string where they were unbound, and leaves
    every binding of the dictionary as it finds it, so a rerun never resets
    a stored transcript or summary; it binds no other key, and running it
    again changes nothing. *)
Theorem init_session_keeps_bindings (d : store) :
  (forall key, In key session_keys ->
     lookup (lit key) (init_session d)
     = match lookup (lit key) d with
       | Some v => Some v
       | None => Some (JStr [])
       end) /\
  (forall k v, lookup k d = Some v -> lookup k (init_session d) = Some v) /\
  (forall k, (forall key, In key session_keys -> k <> lit key) ->
     lookup k (init_session d) = lookup k d) /\
  init_session (init_session d) = init_session d.
Proof.
  assert (Hkeys : forall key, In key session_keys ->
            lookup (lit key) (init_session d)
            = match lookup (lit key) d with
              | Some v => Some v
              | None => Some (JStr [])
              end).
  { intros key [<-|[<-|[<-|[]]]]; unfold init_session, session_keys;
      cbn [fold_left].
    - rewrite !setdefault_other by distinct_keys. apply setdefault_binds.
    - rewrite setdefault_other by distinct_keys.
      rewrite setdefault_binds. now rewrite setdefault_other by distinct_keys.
    - rewrite setdefault_binds.
      now rewrite !setdefault_other by distinct_keys. }
  repeat split.
  - exact Hkeys.
  - intros k v H. unfold init_session, session_keys. cbn [fold_left].
    now repeat apply setdefault_keeps.
  - intros k Hk. unfold init_session, session_keys. cbn [fold_left].
    now rewrite !setdefault_other by (apply Hk; simpl; auto).
  - assert (Hb : forall key, In key session_keys ->
              exists v, lookup (lit key) (init_session d) = Some v).
    { intros key Hin. rewrite (Hkeys key Hin).
      destruct (lookup (lit key) d); eauto. }
    destruct (Hb "transcript"%string) as [v1 H1]; [simpl; auto|].
    destruct (Hb "summary"%string) as [v2 H2]; [simpl; auto|].
    destruct (Hb "key_actions"%string) as [v3 H3]; [simpl; auto|].
    unfold init_session at 1. unfold session_keys. cbn [fold_left].
    rewrite (setdefault_bound _ _ _ _ H1), (setdefault_bound _ _ _ _ H2).
    exact (setdefault_bound _ _ _ _ H3).
Qed.

Lemma init_session_keeps_bindings_witness :
  lookup (lit "transcript")
    (init_session [(lit "transcript", JStr (lit "Earlier transcript."))])
  = Some (JStr (lit "Earlier transcript.")) /\
  lookup (lit "summary")
    (init_session [(lit "transcript", JStr (lit "Earlier transcript."))])
  = Some (JStr []).
Proof.
  split.
  - apply (proj1 (proj2 (init_session_keeps_bindings
             [(lit "transcript", JStr (lit "Earlier transcript."))]))).
    reflexivity.
  - rewrite (proj1 (init_session_keeps_bindings
                      [(lit "transcript", JStr (lit "Earlier transcript."))])
               "summary"%string ltac:(simpl; auto)).
    reflexivity.
Defined.

(** ** A transcription from upload to transcript *)

(** X11.  When the upload and the job request are answered with status 200
    and carry the URL and the identifier, and the job, polled under that
    identifier, is reported as completed after [n] polls with other
    statuses, the action ends with one status message for each of those
    polls and the success message; the text of the completed response
    replaces whatever transcript the session held, and the summary stays. *)
Theorem transcription_stores_completed_text
    (p : provider) (fuel : nat) (st : session_state)
    (upload_url transcript_id t : value) (sts : nat -> value) (n : nat) :
  status_code (upload p) = 200%Z ->
  (body <- json_of (upload p) ;; item "upload_url" body) = Ok upload_url ->
  status_code (request_transcript p upload_url) = 200%Z ->
  (body <- json_of (request_transcript p upload_url) ;; item "id" body)
  = Ok transcript_id ->
  (forall i, i < n ->
     poll_status (poll p transcript_id i) = Ok (sts i) /\
     terminal (sts i) = false) ->
  poll_status (poll p transcript_id n) = Ok (JStr (lit "completed")) ->
  poll_text (poll p transcript_id n) = Ok t ->
  n < fuel ->
  transcribe p fuel st
  = Finished (set_transcript t st)
      (waiting sts 0 n ++ [Success "✅ Transcription completed!"]) /\
  transcript (state_of (transcribe p fuel st)) = t /\
  summary (state_of (transcribe p fuel st)) = summary st.
Proof.
  intros Hup Hurl Hreq Hid Hbefore Hn Ht Hfuel.
  rewrite (transcribe_polls p fuel st upload_url transcript_id Hup Hurl Hreq Hid).
  rewrite (poll_loop_completed _ sts n t fuel st Hbefore Hn Ht Hfuel).
  repeat split.
Qed.

Lemma transcription_stores_completed_text_witness :
  transcribe working_provider 3 sample_state
  = Finished
      (set_transcript (JStr (lit "Patient reports a cough.")) sample_state)
      (waiting sample_statuses 0 2 ++ [Success "✅ Transcription completed!"]).
Proof.
  apply (transcription_stores_completed_text working_provider 3 sample_state
           (JStr (lit "https://cdn/u/1")) (JStr (lit "job-1"))
           (JStr (lit "Patient reports a cough.")) sample_statuses 2).
  - reflexivity.
  - reflexivity.
  - reflexivity.
  - reflexivity.
  - intros [|[|i]] Hi; [split; reflexivity | split; reflexivity | lia].
  - reflexivity.
  - reflexivity.
  - lia.
Defined.

(** X12.  A job that completes with an empty text still ends with the
    success message, and the empty text replaces the transcript: the
    Transcription page then shows no transcript, and the Summary page shows
    only its warning, without the button and without the summary that is
    still stored. *)
Theorem empty_transcript_locks_summary_page
    (p : provider) (fuel : nat) (st : session_state)
    (upload_url transcript_id : value) (sts : nat -> value) (n : nat)
    (stored : str) :
  status_code (upload p) = 200%Z ->
  (body <- json_of (upload p) ;; item "upload_url" body) = Ok upload_url ->
  status_code (request_transcript p upload_url) = 200%Z ->
  (body <- json_of (request_transcript p upload_url) ;; item "id" body)
  = Ok transcript_id ->
  (forall i, i < n ->
     poll_status (poll p transcript_id i) = Ok (sts i) /\
     terminal (sts i) = false) ->
  poll_status (poll p transcript_id n) = Ok (JStr (lit "completed")) ->
  poll_text (poll p transcript_id n) = Ok (JStr []) ->
  n < fuel ->
  summary st = JStr stored ->
  exists shown,
    transcript (state_of (transcribe p fuel st)) = JStr shown /\
    summary (state_of (transcribe p fuel st)) = JStr stored /\
    In (Success "✅ Transcription completed!")
       (log_of (transcribe p fuel st)) /\
    transcript_section shown = [] /\
    summary_page_idle shown stored
    = [ Shown (Subheader "Summarize the Transcript");
        Shown (Warning "Please transcribe an audio file first.") ].
Proof.
  intros Hup Hurl Hreq Hid Hbefore Hn Ht Hfuel Hsum.
  rewrite (transcribe_polls p fuel st upload_url transcript_id Hup Hurl Hreq Hid).
  rewrite (poll_loop_completed _ sts n _ fuel st Hbefore Hn Ht Hfuel).
  exists []. repeat split; try assumption.
  simpl. apply in_or_app. right. now left.
Qed.

Lemma empty_transcript_locks_summary_page_witness :
  exists shown,
    transcript (state_of (transcribe silent_provider 1 sample_state))
    = JStr shown /\
    summary_page_idle shown (lit "Summary: earlier visit.")
    = [ Shown (Subheader "Summarize the Transcript");
        Shown (Warning "Please transcribe an audio file first.") ].
Proof.
  destruct (empty_transcript_locks_summary_page silent_provider 1 sample_state
              (JStr (lit "https://cdn/u/2")) (JStr (lit "job-2"))
              (fun _ => JNull) 0 (lit "Summary: earlier visit.")
              eq_refl eq_refl eq_refl eq_refl
              ltac:(intros i Hi; lia) eq_refl eq_refl ltac:(lia) eq_refl)
    as (shown & Ht & _ & _ & _ & Hpage).
  exists shown. split; assumption.
Defined.
